(** * Swipe actions: action descriptors, action buttons and the swipeable row

    A shallow embedding of

    - [src/domain/entities/SwipeAction.ts]: the action vocabulary, the
      preset table, the default row configuration and [SwipeActionUtils];
    - [presentation/components/SwipeActionButton.tsx] (both variants): what a
      button renders and what [handlePress] does when it is tapped;
    - [presentation/components/SwipeableItem.tsx]: the props the row hands to
      the gesture collaborator ([Swipeable]);
    - [presentation/hooks/useSwipeActions.ts]: the preset factories.

    JavaScript values are modelled as follows.  An optional property is an
    [option]; a string is a [string] and is truthy exactly when it is not
    empty; a string-literal union is an inductive type; a [number] that is
    only passed along is a [Z]; an object used as a table is a function into
    [option] (a missing key reads as [undefined]).  An [async] function is a
    small program of awaited calls that the event loop advances one settled
    promise at a time. *)

From Stdlib Require Import ZArith.
From stdpp Require Import base option list strings.

Open Scope string_scope.
Open Scope list_scope.

(** ** JavaScript truthiness of strings *)

Module Js.

(** [!!s] for a string [s]: only the empty string is falsy. *)
Definition truthy (s : string) : bool :=
  match s with
  | EmptyString => false
  | String _ _ => true
  end.

(** [!!x] for an optional string property: [undefined] and [''] are falsy. *)
Definition given (x : option string) : bool :=
  match x with
  | Some s => truthy s
  | None => false
  end.

(** [x || d] where [x] is a string or [undefined] and [d] a string. *)
Definition or_else (x : option string) (d : string) : string :=
  match x with
  | Some s => if truthy s then s else d
  | None => d
  end.

(** The property holds the non-empty string [s]. *)
Definition supplied (x : option string) (s : string) : Prop :=
  x = Some s /\ s <> EmptyString.

(** The property is absent or holds the empty string. *)
Definition omitted (x : option string) : Prop :=
  x = None \/ x = Some EmptyString.

End Js.

(** ** Domain entities: [SwipeAction.ts] *)

Module SwipeAction.

(** [SwipeActionType] *)
Inductive SwipeActionType :=
| delete | archive | edit | share | favorite | more | custom.

#[export] Instance SwipeActionType_eq_dec : EqDecision SwipeActionType.
Proof. solve_decision. Defined.

(** The color roles a preset can name ([colorKey] of [ACTION_PRESETS]). *)
Inductive ColorKey :=
| error | success | primary | secondary | warning | textSecondary.

(** ['Light' | 'Medium' | 'Heavy'] *)
Inductive HapticsIntensity := Light | Medium | Heavy.

(** The callback stored in [onPress] is opaque; it is known by a name. *)
Definition Handler := nat.

(** What the [onPress] property holds at run time: [validateAction] tests
    for a missing property and for a value that is not a function. *)
Inductive OnPress :=
| Missing
| NotAFunction
| Callable (h : Handler).

(** [SwipeActionConfig] *)
Record SwipeActionConfig := {
  type : SwipeActionType;
  label : option string;
  icon : option string;
  color : option string;
  onPress : OnPress;
  enableHaptics : option bool;
}.

(** One entry of [ACTION_PRESETS]. *)
Record Preset := {
  preset_label : string;
  preset_icon : string;
  colorKey : ColorKey;
  hapticsIntensity : HapticsIntensity;
}.

(** [ACTION_PRESETS[type]]: the table has no ['custom'] key. *)
Definition ACTION_PRESETS (t : SwipeActionType) : option Preset :=
  match t with
  | delete => Some {| preset_label := "Delete"; preset_icon := "Trash2";
                      colorKey := error; hapticsIntensity := Heavy |}
  | archive => Some {| preset_label := "Archive"; preset_icon := "Archive";
                       colorKey := success; hapticsIntensity := Medium |}
  | edit => Some {| preset_label := "Edit"; preset_icon := "Pencil";
                    colorKey := primary; hapticsIntensity := Light |}
  | share => Some {| preset_label := "Share"; preset_icon := "Share2";
                     colorKey := secondary; hapticsIntensity := Light |}
  | favorite => Some {| preset_label := "Favorite"; preset_icon := "Heart";
                        colorKey := warning; hapticsIntensity := Light |}
  | more => Some {| preset_label := "More"; preset_icon := "MoveHorizontal";
                    colorKey := textSecondary; hapticsIntensity := Light |}
  | custom => None
  end.

(** [SwipeActionUtils.getPreset] *)
Definition getPreset (t : SwipeActionType) : option Preset :=
  if decide (t = custom) then None else ACTION_PRESETS t.

(** [SwipeActionUtils.validateAction] *)
Definition validateAction (action : SwipeActionConfig) : bool :=
  match onPress action with
  | Missing | NotAFunction => false
  | Callable _ =>
      if decide (type action = custom)
      then Js.given (label action) && Js.given (icon action)
           && Js.given (color action)
      else true
  end.

(** [SwipeActionUtils.getLabel] *)
Definition getLabel (action : SwipeActionConfig) : string :=
  if Js.given (label action) then default EmptyString (label action)
  else
    let preset := getPreset (type action) in
    Js.or_else (preset_label <$> preset) "Action".

(** [SwipeActionUtils.getIcon] *)
Definition getIcon (action : SwipeActionConfig) : string :=
  if Js.given (icon action) then default EmptyString (icon action)
  else
    let preset := getPreset (type action) in
    Js.or_else (preset_icon <$> preset) "MoveHorizontal".

(** [SwipeActionUtils.getColorKey]; [None] is [null]. *)
Definition getColorKey (action : SwipeActionConfig) : option ColorKey :=
  if Js.given (color action) then None
  else
    let preset := getPreset (type action) in
    colorKey <$> preset.

(** [SwipeActionUtils.getHapticsIntensity] *)
Definition getHapticsIntensity (action : SwipeActionConfig)
  : HapticsIntensity :=
  let preset := getPreset (type action) in
  default Light (hapticsIntensity <$> preset).

(** The type of [DEFAULT_SWIPE_CONFIG]: [SwipeableConfig] without the two
    action lists, every field required. *)
Record SwipeDefaults := {
  threshold : Z;
  disableOvershoot : bool;
  friction : Z;
}.

(** [DEFAULT_SWIPE_CONFIG] *)
Definition DEFAULT_SWIPE_CONFIG : SwipeDefaults :=
  {| threshold := 80; disableOvershoot := true; friction := 2 |}.

End SwipeAction.

(** ** Preset factories: [useSwipeActions.ts] *)

Module UseSwipeActions.
Import SwipeAction.

(** The object literal every factory returns: a type, the handler and
    [enableHaptics: true]; no override is set. *)
Definition preset_action (t : SwipeActionType) (h : Handler)
  : SwipeActionConfig :=
  {| type := t; label := None; icon := None; color := None;
     onPress := Callable h; enableHaptics := Some true |}.

Definition createDeleteAction (onDelete : Handler) := preset_action delete onDelete.
Definition createArchiveAction (onArchive : Handler) := preset_action archive onArchive.
Definition createEditAction (onEdit : Handler) := preset_action edit onEdit.
Definition createShareAction (onShare : Handler) := preset_action share onShare.
Definition createFavoriteAction (onFavorite : Handler) := preset_action favorite onFavorite.
Definition createMoreAction (onMore : Handler) := preset_action more onMore.

End UseSwipeActions.

(** ** Asynchronous functions on the event loop

    [handlePress] is an [async] function without [try]/[catch]: a sequence of
    awaited calls.  Calling it runs its body up to the first [await]; when
    the awaited promise is fulfilled the body runs on to the next [await];
    when it is rejected, or when the body throws, the promise of the
    invocation is rejected and nothing more of the body runs. *)

Module Async.
Import SwipeAction.

(** The calls [handlePress] makes on its collaborators. *)
Inductive Call :=
| Impact (intensity : HapticsIntensity)   (* HapticService.impact(intensity) *)
| Invoke (h : Handler).                   (* action.onPress() *)

(** The rest of an [async] body. *)
Inductive Body :=
| Await (c : Call) (rest : Body)   (* await c; rest *)
| Throw                            (* the next statement throws *)
| Return.                          (* the end of the body *)

(** The promise of one invocation. *)
Inductive Promise :=
| Pending (awaiting : Call) (rest : Body)
| Fulfilled
| Rejected.

(** Run a body up to its next [await]: the call made, if any, and the
    state the invocation is left in. *)
Definition advance (b : Body) : list Call * Promise :=
  match b with
  | Await c rest => ([c], Pending c rest)
  | Throw => ([], Rejected)
  | Return => ([], Fulfilled)
  end.

(** One button instance on the event loop: the calls made so far, oldest
    first, and the invocations of its [onPress] prop, in the order of the
    activations. *)
Record Loop := {
  calls : list Call;
  invocations : list Promise;
}.

Definition idle : Loop := {| calls := []; invocations := [] |}.

Inductive Event :=
| Press                          (* the button is activated *)
| Settle (i : nat) (ok : bool).  (* the promise invocation [i] awaits is
                                    fulfilled ([true]) or rejected *)

(** One event, for a button whose [onPress] prop has the body [body].  A
    promise settles once: [Settle] on an invocation that awaits nothing
    changes nothing. *)
Definition step (body : Body) (l : Loop) (e : Event) : Loop :=
  match e with
  | Press =>
      let '(cs, p) := advance body in
      {| calls := calls l ++ cs; invocations := invocations l ++ [p] |}
  | Settle i ok =>
      match invocations l !! i with
      | Some (Pending _ rest) =>
          if ok then
            let '(cs, p) := advance rest in
            {| calls := calls l ++ cs;
               invocations := <[i := p]> (invocations l) |}
          else
            {| calls := calls l;
               invocations := <[i := Rejected]> (invocations l) |}
      | _ => l
      end
  end.

Definition run (body : Body) (l : Loop) (es : list Event) : Loop :=
  foldl (step body) l es.

Definition is_invoke (c : Call) : bool :=
  match c with Invoke _ => true | Impact _ => false end.

Definition is_impact (c : Call) : bool :=
  match c with Impact _ => true | Invoke _ => false end.

(** How many times the handler has been invoked. *)
Definition handler_invocations (l : Loop) : nat :=
  length (List.filter is_invoke (calls l)).

(** How many haptic requests have been issued. *)
Definition haptic_requests (l : Loop) : nat :=
  length (List.filter is_impact (calls l)).

(** An invocation whose handler has been called and has not completed. *)
Definition handler_pending (p : Promise) : bool :=
  match p with
  | Pending (Invoke _) _ => true
  | _ => false
  end.

(** How many handler invocations are in flight. *)
Definition handlers_in_flight (l : Loop) : nat :=
  length (List.filter handler_pending (invocations l)).

End Async.


(** ** The action button: [SwipeActionButton.tsx] *)

Module SwipeActionButton.
Import SwipeAction Async.

(** [SwipeDirection] *)
Inductive SwipeDirection := left | right.

(** What [useAppDesignTokens()] supplies and the button reads:
    [tokens.colors[key]] for the color roles and [tokens.spacing.lg]. *)
Record Tokens := {
  colors : ColorKey -> string;
  spacing_lg : Z;
}.

(** [SwipeActionButtonProps] (without the optional [style]). *)
Record SwipeActionButtonProps := {
  action : SwipeActionConfig;
  position : nat;
  totalActions : nat;
  direction : SwipeDirection;
}.

(** The rendered [TouchableOpacity]: its background, the icon and the text
    inside it, and its [onPress] prop. *)
Record View := {
  backgroundColor : string;
  paddingHorizontal : Z;
  minWidth : Z;
  iconName : string;
  text : string;
  press : Body;
}.

(** [action.onPress()]: calling a value that is not a function throws. *)
Definition call_onPress (a : SwipeActionConfig) (rest : Body) : Body :=
  match onPress a with
  | Callable h => Await (Invoke h) rest
  | Missing | NotAFunction => Throw
  end.

(** [handlePress], with the [enableHaptics] of the component body. *)
Definition handlePress (a : SwipeActionConfig) (enableHaptics : bool)
  : Body :=
  let execute := call_onPress a Return in
  if enableHaptics then
    let intensity := getHapticsIntensity a in
    match intensity with
    | Light => Await (Impact Light) execute
    | Medium => Await (Impact Medium) execute
    | _ => Await (Impact Heavy) execute
    end
  else execute.

(** [action.enableHaptics !== false] *)
Definition haptics_on (a : SwipeActionConfig) : bool :=
  match SwipeAction.enableHaptics a with
  | Some false => false
  | _ => true
  end.

(** [customColor || (colorKey ? tokens.colors[colorKey] : tokens.colors.primary)] *)
Definition background (tokens : Tokens) (a : SwipeActionConfig) : string :=
  let colorKey := getColorKey a in
  let customColor := color a in
  if Js.given customColor then default EmptyString customColor
  else
    match colorKey with
    | Some k => colors tokens k
    | None => colors tokens primary
    end.

(** The component, first variant: the icon is drawn by name. *)
Definition SwipeActionButton (tokens : Tokens) (props : SwipeActionButtonProps)
  : View :=
  let a := action props in
  let label := getLabel a in
  let icon := getIcon a in
  let enableHaptics := haptics_on a in
  {| backgroundColor := background tokens a;
     paddingHorizontal := spacing_lg tokens;
     minWidth := 80;
     iconName := icon;
     text := label;
     press := handlePress a enableHaptics |}.

(** [iconMap] of the second variant: Lucide names to Ionicons names. *)
Definition iconMap (name : string) : option string :=
  if decide (name = "Trash2") then Some "trash-outline"
  else if decide (name = "Archive") then Some "archive-outline"
  else if decide (name = "Pencil") then Some "pencil-outline"
  else if decide (name = "Share2") then Some "share-outline"
  else if decide (name = "Heart") then Some "heart-outline"
  else if decide (name = "MoveHorizontal") then Some "ellipsis-horizontal-outline"
  else None.

(** The component, second variant: the icon name goes through [iconMap]. *)
Definition SwipeActionButton_ionicons (tokens : Tokens)
    (props : SwipeActionButtonProps) : View :=
  let a := action props in
  let label := getLabel a in
  let iconName' := getIcon a in
  let enableHaptics := haptics_on a in
  let icon := Js.or_else (iconMap iconName') "ellipsis-horizontal-outline" in
  {| backgroundColor := background tokens a;
     paddingHorizontal := spacing_lg tokens;
     minWidth := 80;
     iconName := icon;
     text := label;
     press := handlePress a enableHaptics |}.

(** A mounted button on the event loop. *)
Definition tap (a : SwipeActionConfig) : Loop -> list Event -> Loop :=
  run (handlePress a (haptics_on a)).

(** The events that carry the [n]-th activation of a button up to the call
    of its handler: the tap and, with haptics on, the haptic promise of that
    invocation fulfilled. *)
Definition activation (a : SwipeActionConfig) (n : nat) : list Event :=
  if haptics_on a then [Press; Settle n true] else [Press].

(** [count] activations in a row, the first one being the [first]-th of the
    button; none of the handlers completes in between. *)
Fixpoint activations (a : SwipeActionConfig) (first count : nat) : list Event :=
  match count with
  | 0 => []
  | S count' => activation a first ++ activations a (S first) count'
  end.

End SwipeActionButton.

(** ** The swipeable row: [SwipeableItem.tsx] *)

Module SwipeableItem.
Import SwipeAction SwipeActionButton.

(** A callback of the embedding list, known by a name. *)
Definition Callback := nat.

(** [SwipeableItemProps] (without [children] and [style]). *)
Record SwipeableItemProps := {
  leftActions : option (list SwipeActionConfig);
  rightActions : option (list SwipeActionConfig);
  threshold : option Z;
  disableOvershoot : option bool;
  friction : option Z;
  onSwipeBegin : option Callback;
  onSwipeEnd : option Callback;
}.

(** The two animated values a render callback receives (and ignores). *)
Record Animated := { progress : Z; drag : Z }.

(** A call on the embedding list. *)
Inductive Notification :=
| SwipeBegin (cb : Callback) (d : SwipeDirection)
| SwipeEnd (cb : Callback).

(** The props of the [Swipeable] element the row returns.  A render
    callback yields the [SwipeActionButton] elements of its side, or
    [None] for [null]. *)
Record SwipeableProps := {
  sw_friction : Z;
  overshootLeft : bool;
  overshootRight : bool;
  leftThreshold : Z;
  rightThreshold : Z;
  renderLeftActions : option (Animated -> option (list SwipeActionButtonProps));
  renderRightActions : option (Animated -> option (list SwipeActionButtonProps));
  onSwipeableWillOpen : SwipeDirection -> list Notification;
  onSwipeableClose : list Notification;
}.

(** The body shared by the two render callbacks. *)
Definition renderActions (d : SwipeDirection) (actions : list SwipeActionConfig)
    (_ : Animated) : option (list SwipeActionButtonProps) :=
  if decide (length actions = 0) then None
  else Some (imap (fun index a =>
                     {| action := a; position := index;
                        totalActions := length actions; direction := d |})
                  actions).

(** The component. *)
Definition SwipeableItem (props : SwipeableItemProps) : SwipeableProps :=
  let leftActions := default [] (leftActions props) in
  let rightActions := default [] (rightActions props) in
  let threshold :=
    default (SwipeAction.threshold DEFAULT_SWIPE_CONFIG) (threshold props) in
  let disableOvershoot :=
    default (SwipeAction.disableOvershoot DEFAULT_SWIPE_CONFIG)
            (disableOvershoot props) in
  let friction :=
    default (SwipeAction.friction DEFAULT_SWIPE_CONFIG) (friction props) in
  {| sw_friction := friction;
     overshootLeft := negb disableOvershoot;
     overshootRight := negb disableOvershoot;
     leftThreshold := threshold;
     rightThreshold := threshold;
     renderLeftActions :=
       if decide (0 < length leftActions) then Some (renderActions left leftActions)
       else None;
     renderRightActions :=
       if decide (0 < length rightActions) then Some (renderActions right rightActions)
       else None;
     onSwipeableWillOpen := fun d =>
       match onSwipeBegin props with
       | Some cb => [SwipeBegin cb d]
       | None => []
       end;
     onSwipeableClose :=
       match onSwipeEnd props with
       | Some cb => [SwipeEnd cb]
       | None => []
       end |}.

(** A row constructed with no explicit configuration. *)
Definition bare : SwipeableItemProps :=
  {| leftActions := None; rightActions := None; threshold := None;
     disableOvershoot := None; friction := None;
     onSwipeBegin := None; onSwipeEnd := None |}.

(** The render callback of one side. *)
Definition render_callback (sw : SwipeableProps) (d : SwipeDirection) :=
  match d with
  | left => renderLeftActions sw
  | right => renderRightActions sw
  end.

(** The action list of one side, as the component reads it. *)
Definition actions_of (props : SwipeableItemProps) (d : SwipeDirection)
  : list SwipeActionConfig :=
  match d with
  | left => default [] (leftActions props)
  | right => default [] (rightActions props)
  end.

(** The buttons drawn for one side when the gesture collaborator reveals
    it: what the side's callback returns, each element rendered. *)
Definition revealed (tokens : Tokens) (props : SwipeableItemProps)
    (d : SwipeDirection) (v : Animated) : list View :=
  match render_callback (SwipeableItem props) d with
  | Some callback =>
      match callback v with
      | Some elements => SwipeActionButton tokens <$> elements
      | None => []
      end
  | None => []
  end.

End SwipeableItem.

(** ** The gesture collaborator

    [Swipeable] is not part of this package.  The row state it keeps is
    modelled by the side that is open, and the collaborator itself by a
    transition function the properties below take as a parameter, under the
    contract [opens_by_revealing].  [reference] is one such collaborator. *)

Module Gesture.
Import SwipeAction SwipeActionButton SwipeableItem.

(** The side that is open; [None] when the row is closed. *)
Definition RowState := option SwipeDirection.

Inductive GestureEvent :=
| Release (translationX : Z)   (* the drag ends, so far from where it began *)
| CloseRequest.                (* [close()] *)

Definition Collaborator := SwipeableProps -> RowState -> GestureEvent -> RowState.

(** The row after a sequence of gesture events. *)
Definition drive (swipeable : Collaborator) (sw : SwipeableProps)
    (st : RowState) (es : list GestureEvent) : RowState :=
  foldl (swipeable sw) st es.

(** The contract: the collaborator opens a side only by revealing the panel
    that side's render callback draws; a side without a callback that is
    not open stays not open. *)
Definition opens_by_revealing (swipeable : Collaborator) : Prop :=
  forall sw st e d,
    swipeable sw st e = Some d -> st = Some d \/ render_callback sw d <> None.

(** The width of a side's panel: nothing without a callback or when the
    callback draws nothing; otherwise the buttons side by side, each taken
    at its minimal width. *)
Definition panelWidth (v : Animated)
    (callback : option (Animated -> option (list SwipeActionButtonProps))) : Z :=
  match callback with
  | Some f =>
      match f v with
      | Some elements => 80 * Z.of_nat (length elements)
      | None => 0
      end
  | None => 0
  end.

(** The side a row settles on when it is animated to the offset [toValue]. *)
Definition settle (toValue : Z) : RowState :=
  if (0 <? toValue)%Z then Some left
  else if (toValue <? 0)%Z then Some right
  else None.

(** A reference collaborator: on release the row goes to the full width of
    a panel when the translation passes that side's threshold, and closes
    otherwise. *)
Definition reference (v : Animated) : Collaborator := fun sw st e =>
  let leftWidth := panelWidth v (renderLeftActions sw) in
  let rightWidth := panelWidth v (renderRightActions sw) in
  match e with
  | CloseRequest => None
  | Release translationX =>
      let toValue :=
        match st with
        | None =>
            if (leftThreshold sw <? translationX)%Z then leftWidth
            else if (translationX <? - rightThreshold sw)%Z then (- rightWidth)%Z
            else 0%Z
        | Some left =>
            if (- leftThreshold sw <? translationX)%Z then leftWidth else 0%Z
        | Some right =>
            if (translationX <? rightThreshold sw)%Z then (- rightWidth)%Z else 0%Z
        end in
      settle toValue
  end.

End Gesture.

(** ** Concrete descriptors and rows *)

Module Scenario.
Import SwipeAction SwipeActionButton SwipeableItem.

(** A theme, to have concrete colors to compare. *)
Definition tokens : Tokens :=
  {| colors := fun k =>
       match k with
       | error => "#FF3B30"
       | success => "#34C759"
       | primary => "#007AFF"
       | secondary => "#5856D6"
       | warning => "#FF9500"
       | textSecondary => "#8E8E93"
       end;
     spacing_lg := 16 |}.

(** [{type: 'delete', label: '', onPress: h}] with [h] the handler [0]. *)
Definition delete_empty_label : SwipeActionConfig :=
  {| type := delete; label := Some EmptyString; icon := None; color := None;
     onPress := Callable 0; enableHaptics := None |}.

(** [{type: 'delete', color: '#123456', onPress: h}] *)
Definition delete_recolored : SwipeActionConfig :=
  {| type := delete; label := None; icon := None; color := Some "#123456";
     onPress := Callable 0; enableHaptics := None |}.

(** [{type: 'custom', label: 'Block', icon: 'ban', color: '#FF0000', onPress: h}] *)
Definition block (h : Handler) : SwipeActionConfig :=
  {| type := custom; label := Some "Block"; icon := Some "ban";
     color := Some "#FF0000"; onPress := Callable h; enableHaptics := None |}.

(** [{type: 'custom', label: 'Block', icon: 'ban', onPress: h}]: no color. *)
Definition block_colorless : SwipeActionConfig :=
  {| type := custom; label := Some "Block"; icon := Some "ban";
     color := None; onPress := Callable 0; enableHaptics := None |}.

(** [{type: 'custom', onPress: h}]: no label, icon or color. *)
Definition custom_bare : SwipeActionConfig :=
  {| type := custom; label := None; icon := None;
     color := None; onPress := Callable 0; enableHaptics := None |}.

(** [{type: 'delete', onPress: h, enableHaptics: false}] *)
Definition delete_quiet : SwipeActionConfig :=
  {| type := delete; label := None; icon := None; color := None;
     onPress := Callable 0; enableHaptics := Some false |}.

(** A row with one archive action on the left and an empty right side. *)
Definition left_only : SwipeableItemProps :=
  {| leftActions := Some [UseSwipeActions.createArchiveAction 1];
     rightActions := Some [];
     threshold := None; disableOvershoot := None; friction := None;
     onSwipeBegin := None; onSwipeEnd := None |}.

(** A row whose only right action is the custom action without a color. *)
Definition colorless_row : SwipeableItemProps :=
  {| leftActions := None;
     rightActions := Some [block_colorless];
     threshold := None; disableOvershoot := None; friction := None;
     onSwipeBegin := None; onSwipeEnd := None |}.

(** Animated values to call a render callback with. *)
Definition still : Animated := {| progress := 0; drag := 0 |}.

End Scenario.

(** ** Statements of the specification that the code does not meet *)

Module Worded.
Import SwipeAction Async SwipeActionButton SwipeableItem.

(** "explicit value > preset value", for the label: whatever string the
    descriptor carries as its label is the resolved label. *)
Definition explicit_label_wins : Prop :=
  forall (a : SwipeActionConfig) (l : string),
    label a = Some l -> getLabel a = l.

(** "At most one handler invocation can be in flight per button". *)
Definition one_in_flight : Prop :=
  forall (a : SwipeActionConfig) (es : list Event),
    handlers_in_flight (tap a idle es) <= 1.

(** "Two activations issued before the first activation's handler completes
    result in exactly one handler invocation": both taps, then both haptic
    promises fulfilled, no handler promise settled. *)
Definition second_tap_ignored : Prop :=
  forall (a : SwipeActionConfig) (h : Handler),
    onPress a = Callable h ->
    handler_invocations (tap a idle [Press; Press; Settle 0 true; Settle 1 true])
    = 1.

(** "A rejection of the haptic call never blocks or fails the activation:
    the handler is still invoked exactly once and the haptic error is not
    propagated". *)
Definition haptic_failure_recovered : Prop :=
  forall (a : SwipeActionConfig) (h : Handler),
    onPress a = Callable h ->
    enableHaptics a <> Some false ->
    let l := tap a idle [Press; Settle 0 false] in
    handler_invocations l = 1 /\ invocations l !! 0 <> Some Rejected.

(** "A descriptor that fails validation is not rendered": a side whose
    descriptors all fail validation shows no button. *)
Definition invalid_not_rendered : Prop :=
  forall (tokens : Tokens) (props : SwipeableItemProps) (d : SwipeDirection)
         (v : Animated),
    (forall a, a ∈ actions_of props d -> validateAction a = false) ->
    revealed tokens props d v = [].

End Worded.

(** ** The hook as a value: [useSwipeActions.ts] *)

Module Hook.
Import SwipeAction UseSwipeActions.

(** [UseSwipeActionsReturn] *)
Record UseSwipeActionsReturn := {
  createDelete : Handler -> SwipeActionConfig;
  createArchive : Handler -> SwipeActionConfig;
  createEdit : Handler -> SwipeActionConfig;
  createShare : Handler -> SwipeActionConfig;
  createFavorite : Handler -> SwipeActionConfig;
  createMore : Handler -> SwipeActionConfig;
}.

(** [useSwipeActions()] *)
Definition useSwipeActions : UseSwipeActionsReturn :=
  {| createDelete := createDeleteAction;
     createArchive := createArchiveAction;
     createEdit := createEditAction;
     createShare := createShareAction;
     createFavorite := createFavoriteAction;
     createMore := createMoreAction |}.

(** The six factories of the hook, each with the action type it is for. *)
Definition factories
  : list (SwipeActionType * (Handler -> SwipeActionConfig)) :=
  let r := useSwipeActions in
  [ (delete, createDelete r); (archive, createArchive r);
    (edit, createEdit r); (share, createShare r);
    (favorite, createFavorite r); (more, createMore r) ].

End Hook.

(** ** Counting calls on the event loop *)

Module Ledger.
Import SwipeAction Async SwipeActionButton.

(** How many calls of a kind a body makes when it runs to its end. *)
Fixpoint count_in (f : Call -> bool) (b : Body) : nat :=
  match b with
  | Await c rest => (if f c then 1 else 0) + count_in f rest
  | Throw | Return => 0
  end.

(** The calls of a kind an invocation can still make. *)
Definition owed (f : Call -> bool) (p : Promise) : nat :=
  match p with
  | Pending _ rest => count_in f rest
  | Fulfilled | Rejected => 0
  end.

(** The calls of a kind made so far. *)
Definition made (f : Call -> bool) (l : Loop) : nat :=
  length (List.filter f (calls l)).

(** Made and still owed. *)
Definition total (f : Call -> bool) (l : Loop) : nat :=
  made f l + sum_list_with (owed f) (invocations l).

Definition is_press (e : Event) : bool :=
  match e with Press => true | Settle _ _ => false end.

(** How many times the button was tapped. *)
Definition presses (es : list Event) : nat :=
  length (List.filter is_press es).

End Ledger.

(** ** The icon names of the second button variant *)

Module Icons.



End Icons.

(** ** More concrete descriptors and rows *)

Module Samples.
Import SwipeAction SwipeActionButton SwipeableItem.

(** [{type: 'delete'}]: the handler is missing. *)
Definition delete_unhandled : SwipeActionConfig :=
  {| type := delete; label := None; icon := None; color := None;
     onPress := Missing; enableHaptics := None |}.

(** A row with an archive action on the left, and a delete action and the
    custom action of handler [9] on the right. *)
Definition mailbox : SwipeableItemProps :=
  {| leftActions := Some [UseSwipeActions.createArchiveAction 1];
     rightActions := Some [UseSwipeActions.createDeleteAction 2; Scenario.block 9];
     threshold := Some 120%Z; disableOvershoot := Some false;
     friction := None; onSwipeBegin := Some 11; onSwipeEnd := None |}.

End Samples.

(** ** The lifecycle callbacks the row forwards *)

Module Lifecycle.
Import SwipeAction SwipeActionButton SwipeableItem.




End Lifecycle.

(** * Properties *)

Import SwipeAction UseSwipeActions Async SwipeActionButton SwipeableItem.

(** ** Truthiness *)

Lemma truthy_true s : Js.truthy s = true <-> s <> EmptyString.
Proof. destruct s; simpl; split; congruence. Qed.

Lemma truthy_false s : Js.truthy s = false <-> s = EmptyString.
Proof. destruct s; simpl; split; congruence. Qed.

Lemma given_supplied x s : Js.supplied x s -> Js.given x = true.
Proof. intros [-> Hs]. simpl. now apply truthy_true. Qed.

Lemma given_true x : Js.given x = true <-> exists s, Js.supplied x s.
Proof.
  split.
  - destruct x as [s|]; simpl; [|discriminate].
    intros H. exists s. split; [reflexivity|now apply truthy_true].
  - intros [s H]. eapply given_supplied, H.
Qed.

Lemma given_false x : Js.given x = false <-> Js.omitted x.
Proof.
  unfold Js.omitted. destruct x as [s|]; simpl.
  - rewrite truthy_false. split.
    + intros ->. now right.
    + intros [H|H]; congruence.
  - split; [now left|reflexivity].
Qed.

Lemma supplied_default x s : Js.supplied x s -> default EmptyString x = s.
Proof. now intros [-> _]. Qed.

(** ** The preset table *)

Lemma getPreset_custom : getPreset custom = None.
Proof. reflexivity. Qed.

Lemma getPreset_not_custom t :
  t <> custom -> exists p, ACTION_PRESETS t = Some p /\ getPreset t = Some p.
Proof.
  intros Ht. unfold getPreset. destruct (decide (t = custom)); [done|].
  destruct t; simpl; eauto. done.
Qed.

Lemma getPreset_Some t p :
  getPreset t = Some p -> t <> custom /\ ACTION_PRESETS t = Some p.
Proof.
  unfold getPreset. destruct (decide (t = custom)); [discriminate|]. auto.
Qed.

(** Every label and icon of the table is a non-empty string, so the [||] of
    [getLabel] and [getIcon] never replaces a preset value. *)
Lemma preset_strings_truthy t p :
  ACTION_PRESETS t = Some p ->
  Js.truthy (preset_label p) = true /\ Js.truthy (preset_icon p) = true.
Proof. destruct t; intros [= <-]; split; reflexivity. Qed.

(** ** Validation *)

(** C3. [validateAction] accepts a descriptor exactly when its handler is a
    function and either its type is not [custom] or its label, icon and
    color are all present and non-empty; it rejects a descriptor exactly
    when the handler is absent (or not a function) or the type is [custom]
    and one of the three is absent or empty. *)
Theorem validateAction_spec (a : SwipeActionConfig) :
  (validateAction a = true <->
     (exists h, onPress a = Callable h) /\
     (type a <> custom \/
      ((exists l, Js.supplied (label a) l) /\
       (exists i, Js.supplied (icon a) i) /\
       (exists c, Js.supplied (color a) c))))
  /\
  (validateAction a = false <->
     (forall h, onPress a <> Callable h) \/
     (type a = custom /\
      (Js.omitted (label a) \/ Js.omitted (icon a) \/ Js.omitted (color a)))).
Proof.
  unfold validateAction.
  destruct (onPress a) as [| |h] eqn:Hp.
  - split; split.
    + discriminate.
    + intros [[h Hh] _]; discriminate.
    + intros _. left. intros h; discriminate.
    + reflexivity.
  - split; split.
    + discriminate.
    + intros [[h Hh] _]; discriminate.
    + intros _. left. intros h; discriminate.
    + reflexivity.
  - destruct (decide (type a = custom)) as [Hc|Hc].
    + rewrite !andb_true_iff, !given_true. split; split.
      * intros [[Hl Hi] Hcol]. split; [eauto|]. right. auto.
      * intros [_ [Hne|(Hl & Hi & Hcol)]]; [done|auto].
      * rewrite <- !given_false. intros H. right. split; [exact Hc|].
        destruct (Js.given (label a)); [|auto].
        destruct (Js.given (icon a)); [|auto].
        destruct (Js.given (color a)); [discriminate|auto].
      * rewrite <- !given_false. intros [Hh|[_ [H|[H|H]]]].
        -- now destruct (Hh h).
        -- now rewrite H.
        -- rewrite H. now rewrite andb_false_r.
        -- rewrite H. now rewrite andb_false_r.
    + split; split.
      * intros _. split; [eauto|now left].
      * reflexivity.
      * discriminate.
      * intros [Hh|[Ht _]]; [now destruct (Hh h)|done].
Qed.

Lemma validateAction_spec_witness :
  validateAction (Scenario.block 3) = true /\
  validateAction Scenario.block_colorless = false.
Proof.
  split.
  - apply (validateAction_spec (Scenario.block 3)). split; [now exists 3|].
    right. repeat split; eexists; (split; [reflexivity|discriminate]).
  - apply (validateAction_spec Scenario.block_colorless). right.
    split; [reflexivity|]. right. right. now left.
Defined.


(** ** Resolution of the visual attributes *)

Lemma getLabel_supplied a l : Js.supplied (label a) l -> getLabel a = l.
Proof.
  intros H. unfold getLabel.
  rewrite (given_supplied _ _ H). now apply supplied_default.
Qed.

Lemma getIcon_supplied a i : Js.supplied (icon a) i -> getIcon a = i.
Proof.
  intros H. unfold getIcon.
  rewrite (given_supplied _ _ H). now apply supplied_default.
Qed.

Lemma getColorKey_supplied a c : Js.supplied (color a) c -> getColorKey a = None.
Proof. intros H. unfold getColorKey. now rewrite (given_supplied _ _ H). Qed.

Lemma background_supplied tokens a c :
  Js.supplied (color a) c -> background tokens a = c.
Proof.
  intros H. unfold background.
  rewrite (given_supplied _ _ H). now apply supplied_default.
Qed.

Lemma getLabel_omitted a :
  Js.omitted (label a) ->
  getLabel a = match getPreset (type a) with
               | Some p => preset_label p
               | None => "Action"
               end.
Proof.
  intros H. apply given_false in H. unfold getLabel. rewrite H.
  destruct (getPreset (type a)) as [p|] eqn:Hp; simpl; [|reflexivity].
  apply getPreset_Some in Hp as [_ Hp].
  apply preset_strings_truthy in Hp as [-> _]. reflexivity.
Qed.

Lemma getIcon_omitted a :
  Js.omitted (icon a) ->
  getIcon a = match getPreset (type a) with
              | Some p => preset_icon p
              | None => "MoveHorizontal"
              end.
Proof.
  intros H. apply given_false in H. unfold getIcon. rewrite H.
  destruct (getPreset (type a)) as [p|] eqn:Hp; simpl; [|reflexivity].
  apply getPreset_Some in Hp as [_ Hp].
  apply preset_strings_truthy in Hp as [_ ->]. reflexivity.
Qed.

Lemma getColorKey_omitted a :
  Js.omitted (color a) -> getColorKey a = colorKey <$> getPreset (type a).
Proof. intros H. apply given_false in H. unfold getColorKey. now rewrite H. Qed.

Lemma background_omitted tokens a :
  Js.omitted (color a) ->
  background tokens a = match getPreset (type a) with
                        | Some p => colors tokens (colorKey p)
                        | None => colors tokens primary
                        end.
Proof.
  intros H. unfold background. rewrite (getColorKey_omitted _ H).
  apply given_false in H. rewrite H. now destruct (getPreset (type a)).
Qed.

Lemma getHapticsIntensity_preset a :
  getHapticsIntensity a = match getPreset (type a) with
                          | Some p => hapticsIntensity p
                          | None => Light
                          end.
Proof. unfold getHapticsIntensity. now destruct (getPreset (type a)). Qed.

(** C1, as worded, fails for an override that is the empty string: the
    descriptor [{type: 'delete', label: ''}] carries the explicit label [''],
    and [getLabel] answers the preset label ["Delete"]. *)
Lemma explicit_empty_label_loses :
  label Scenario.delete_empty_label = Some EmptyString /\
  getLabel Scenario.delete_empty_label = "Delete" /\
  ~ Worded.explicit_label_wins.
Proof.
  split; [reflexivity|]. split; [reflexivity|].
  intros H. specialize (H Scenario.delete_empty_label EmptyString eq_refl).
  discriminate H.
Qed.

(** C1, amended.  For every descriptor, label, icon and color each resolve
    on their own (the result depends on the type and on that one property
    only) by the order: the explicit value when it is present and not the
    empty string; otherwise the preset value of the type when the type is
    not [custom]; otherwise ["Action"] for the label and the generic icon
    ["MoveHorizontal"] for the icon (the color key has no fallback:
    [getColorKey] answers [null]).  An explicit color makes [getColorKey]
    answer [null] and is the color the button paints.  A [delete]
    descriptor with only an explicit non-empty color resolves to the preset
    label, icon and haptic intensity and to the caller's color. *)
Theorem resolution_precedence (tokens : Tokens) (a : SwipeActionConfig) :
  (* explicit value *)
  ((forall l, Js.supplied (label a) l -> getLabel a = l) /\
   (forall i, Js.supplied (icon a) i -> getIcon a = i) /\
   (forall c, Js.supplied (color a) c ->
      getColorKey a = None /\ background tokens a = c))
  /\
  (* preset value *)
  (type a <> custom ->
   exists p, ACTION_PRESETS (type a) = Some p /\
     (Js.omitted (label a) -> getLabel a = preset_label p) /\
     (Js.omitted (icon a) -> getIcon a = preset_icon p) /\
     (Js.omitted (color a) ->
        getColorKey a = Some (colorKey p) /\
        background tokens a = colors tokens (colorKey p)))
  /\
  (* fallback *)
  (type a = custom ->
     (Js.omitted (label a) -> getLabel a = "Action") /\
     (Js.omitted (icon a) -> getIcon a = "MoveHorizontal") /\
     (Js.omitted (color a) -> getColorKey a = None))
  /\
  (* each attribute on its own *)
  (forall b, type b = type a ->
     (label b = label a -> getLabel b = getLabel a) /\
     (icon b = icon a -> getIcon b = getIcon a) /\
     (color b = color a ->
        getColorKey b = getColorKey a /\
        background tokens b = background tokens a))
  /\
  (* a recolored delete action *)
  (forall c h e, c <> EmptyString ->
     let d := {| type := delete; label := None; icon := None;
                 color := Some c; onPress := h; enableHaptics := e |} in
     getLabel d = "Delete" /\ getIcon d = "Trash2" /\
     getHapticsIntensity d = Heavy /\
     getColorKey d = None /\ background tokens d = c).
Proof.
  split; [|split; [|split; [|split]]].
  - repeat apply conj.
    + apply getLabel_supplied.
    + apply getIcon_supplied.
    + intros c Hc. split.
      * eapply getColorKey_supplied, Hc.
      * now apply background_supplied.
  - intros Ht. destruct (getPreset_not_custom _ Ht) as (p & Htab & Hp).
    exists p. split; [exact Htab|]. repeat apply conj.
    + intros H. now rewrite (getLabel_omitted _ H), Hp.
    + intros H. now rewrite (getIcon_omitted _ H), Hp.
    + intros H. split.
      * now rewrite (getColorKey_omitted _ H), Hp.
      * now rewrite (background_omitted _ _ H), Hp.
  - intros Ht. repeat apply conj.
    + intros H. now rewrite (getLabel_omitted _ H), Ht.
    + intros H. now rewrite (getIcon_omitted _ H), Ht.
    + intros H. now rewrite (getColorKey_omitted _ H), Ht.
  - intros b Hb. repeat apply conj.
    + intros Hl. unfold getLabel. now rewrite Hl, Hb.
    + intros Hi. unfold getIcon. now rewrite Hi, Hb.
    + intros Hc. split.
      * unfold getColorKey. now rewrite Hc, Hb.
      * unfold background, getColorKey. now rewrite Hc, Hb.
  - intros c h e Hc d.
    assert (Hs : Js.supplied (color d) c) by now split.
    repeat apply conj; try reflexivity.
    + eapply getColorKey_supplied, Hs.
    + now apply background_supplied.
Qed.

Lemma resolution_precedence_witness :
  getLabel Scenario.delete_recolored = "Delete" /\
  getColorKey Scenario.delete_recolored = None /\
  background Scenario.tokens Scenario.delete_recolored = "#123456".
Proof.
  destruct (resolution_precedence Scenario.tokens Scenario.delete_recolored)
    as ((_ & _ & Hcolor) & Hpreset & _).
  destruct Hpreset as (p & Hp & Hlabel & _); [discriminate|].
  injection Hp as <-.
  destruct (Hcolor "#123456") as [Hkey Hbg]; [split; [reflexivity|discriminate]|].
  split; [apply Hlabel; now left|]. split; [exact Hkey|exact Hbg].
Defined.


(** C7. A [delete] descriptor without overrides resolves to the label
    ["Delete"], the icon ["Trash2"], the color key [error] and the intensity
    [Heavy].  The custom descriptor [{type: 'custom', label: 'Block',
    icon: 'ban', color: '#FF0000', onPress: h}] resolves to its own label,
    icon and color and its button calls [h]; no preset is consulted:
    [getPreset] answers [null] for its type, and the three values stay the
    same whatever type the descriptor carries. *)
Theorem scenario_delete_and_block :
  (forall h e,
     let d := {| type := delete; label := None; icon := None; color := None;
                 onPress := h; enableHaptics := e |} in
     getLabel d = "Delete" /\ getIcon d = "Trash2" /\
     getColorKey d = Some error /\ getHapticsIntensity d = Heavy)
  /\
  (forall h,
     let c := Scenario.block h in
     getLabel c = "Block" /\ getIcon c = "ban" /\
     getColorKey c = None /\
     (forall tokens, background tokens c = "#FF0000") /\
     call_onPress c Return = Await (Invoke h) Return /\
     getPreset (type c) = None /\
     (forall t e,
        let c' := {| type := t; label := label c; icon := icon c;
                     color := color c; onPress := onPress c;
                     enableHaptics := e |} in
        getLabel c' = "Block" /\ getIcon c' = "ban" /\
        getColorKey c' = None /\
        (forall tokens, background tokens c' = "#FF0000"))).
Proof.
  split.
  - intros h e d. repeat split.
  - intros h c. repeat split.
Qed.

(** C10. The resolved haptic intensity is a function of the descriptor's
    type alone: two descriptors of the same type resolve to the same
    intensity whatever their other properties are; for a type other than
    [custom] it is the intensity of the preset, and for [custom] it is
    [Light], never [Medium] or [Heavy]. *)
Theorem haptics_by_type_only (a : SwipeActionConfig) :
  (forall b, type b = type a -> getHapticsIntensity b = getHapticsIntensity a)
  /\
  (type a <> custom ->
   exists p, ACTION_PRESETS (type a) = Some p /\
             getHapticsIntensity a = hapticsIntensity p)
  /\
  (type a = custom ->
   getHapticsIntensity a = Light /\
   getHapticsIntensity a <> Medium /\ getHapticsIntensity a <> Heavy).
Proof.
  repeat apply conj.
  - intros b Hb. unfold getHapticsIntensity. now rewrite Hb.
  - intros Ht. destruct (getPreset_not_custom _ Ht) as (p & Htab & Hp).
    exists p. split; [exact Htab|].
    now rewrite getHapticsIntensity_preset, Hp.
  - intros Ht. rewrite getHapticsIntensity_preset, Ht. simpl.
    repeat split; discriminate.
Qed.

Lemma haptics_by_type_only_witness :
  getHapticsIntensity (Scenario.block 3) = Light /\
  getHapticsIntensity Scenario.delete_recolored
  = getHapticsIntensity (createDeleteAction 3).
Proof.
  split.
  - now apply (haptics_by_type_only (Scenario.block 3)).
  - now apply (haptics_by_type_only (createDeleteAction 3)).
Defined.


(** A custom descriptor with nothing but a handler is drawn from the
    fallbacks. *)
Example custom_bare_fallbacks :
  let view := SwipeActionButton Scenario.tokens
                {| action := Scenario.custom_bare; position := 0;
                   totalActions := 1; direction := right |} in
  text view = "Action" /\ iconName view = "MoveHorizontal" /\
  backgroundColor view = "#007AFF".
Proof. repeat split. Qed.

(** The two variants of the button differ in the icon they draw only: the
    second one knows the six preset icons and draws any other name, such as
    ["ban"], as the ellipsis. *)
Lemma variants_agree tokens p :
  backgroundColor (SwipeActionButton_ionicons tokens p)
    = backgroundColor (SwipeActionButton tokens p) /\
  text (SwipeActionButton_ionicons tokens p)
    = text (SwipeActionButton tokens p) /\
  press (SwipeActionButton_ionicons tokens p)
    = press (SwipeActionButton tokens p).
Proof. repeat split. Qed.

Example ionicons_unknown_icon :
  iconName (SwipeActionButton_ionicons Scenario.tokens
              {| action := Scenario.block 0; position := 0;
                 totalActions := 1; direction := right |})
  = "ellipsis-horizontal-outline" /\
  iconName (SwipeActionButton Scenario.tokens
              {| action := Scenario.block 0; position := 0;
                 totalActions := 1; direction := right |})
  = "ban".
Proof. split; reflexivity. Qed.

(** ** The button on the event loop *)

Lemma haptics_on_true a : enableHaptics a <> Some false -> haptics_on a = true.
Proof. unfold haptics_on. destruct (enableHaptics a) as [[]|]; congruence. Qed.

Lemma haptics_on_false a : enableHaptics a = Some false -> haptics_on a = false.
Proof. unfold haptics_on. now intros ->. Qed.

Lemma handlePress_haptic a h :
  onPress a = Callable h ->
  handlePress a true
  = Await (Impact (getHapticsIntensity a)) (Await (Invoke h) Return).
Proof.
  intros Hh. unfold handlePress, call_onPress. rewrite Hh.
  now destruct (getHapticsIntensity a).
Qed.

Lemma handlePress_quiet a h :
  onPress a = Callable h -> handlePress a false = Await (Invoke h) Return.
Proof. intros Hh. unfold handlePress, call_onPress. now rewrite Hh. Qed.

Lemma step_Press body l :
  step body l Press
  = {| calls := calls l ++ (advance body).1;
       invocations := invocations l ++ [(advance body).2] |}.
Proof. unfold step. now destruct (advance body). Qed.

(** Settling the promise the newest invocation awaits. *)
Lemma step_Settle_newest body cs inv c rest ok :
  step body {| calls := cs; invocations := inv ++ [Pending c rest] |}
       (Settle (length inv) ok)
  = if ok
    then {| calls := cs ++ (advance rest).1;
            invocations := inv ++ [(advance rest).2] |}
    else {| calls := cs; invocations := inv ++ [Rejected] |}.
Proof.
  unfold step; simpl. rewrite list_lookup_middle by reflexivity.
  destruct ok; [destruct (advance rest) as [cs' p]|];
    rewrite insert_app_r_alt by lia; now rewrite Nat.sub_diag.
Qed.

(** A settled invocation stays as it is. *)
Lemma step_Settle_settled body l i ok p :
  invocations l !! i = Some p -> p = Fulfilled \/ p = Rejected ->
  step body l (Settle i ok) = l.
Proof. intros Hi [-> | ->]; unfold step; now rewrite Hi. Qed.

Lemma handler_invocations_app cs cs' inv inv' :
  handler_invocations {| calls := cs ++ cs'; invocations := inv |}
  = handler_invocations {| calls := cs; invocations := inv' |}
    + length (List.filter is_invoke cs').
Proof.
  unfold handler_invocations; simpl. now rewrite List.filter_app, length_app.
Qed.

Lemma haptic_requests_app cs cs' inv inv' :
  haptic_requests {| calls := cs ++ cs'; invocations := inv |}
  = haptic_requests {| calls := cs; invocations := inv' |}
    + length (List.filter is_impact cs').
Proof.
  unfold haptic_requests; simpl. now rewrite List.filter_app, length_app.
Qed.

Lemma handlers_in_flight_app cs cs' inv ps :
  handlers_in_flight {| calls := cs; invocations := inv ++ ps |}
  = handlers_in_flight {| calls := cs'; invocations := inv |}
    + length (List.filter handler_pending ps).
Proof.
  unfold handlers_in_flight; simpl. now rewrite List.filter_app, length_app.
Qed.

(** One activation with haptics on, from any state of the loop. *)
Lemma tap_haptic a h l :
  onPress a = Callable h -> haptics_on a = true ->
  let n := length (invocations l) in
  let i := getHapticsIntensity a in
  tap a l [Press]
  = {| calls := calls l ++ [Impact i];
       invocations := invocations l
                      ++ [Pending (Impact i) (Await (Invoke h) Return)] |}
  /\
  tap a l [Press; Settle n true]
  = {| calls := (calls l ++ [Impact i]) ++ [Invoke h];
       invocations := invocations l ++ [Pending (Invoke h) Return] |}
  /\
  tap a l [Press; Settle n true; Settle n true]
  = {| calls := ((calls l ++ [Impact i]) ++ [Invoke h]) ++ [];
       invocations := invocations l ++ [Fulfilled] |}
  /\
  tap a l [Press; Settle n false]
  = {| calls := calls l ++ [Impact i];
       invocations := invocations l ++ [Rejected] |}.
Proof.
  intros Hh Hon n i. subst n i. unfold tap, run. rewrite Hon. cbn [foldl].
  rewrite step_Press, (handlePress_haptic a h Hh). cbn [advance fst snd].
  repeat split.
  - rewrite step_Settle_newest. reflexivity.
  - rewrite step_Settle_newest. cbn [advance fst snd].
    rewrite step_Settle_newest. reflexivity.
  - rewrite step_Settle_newest. reflexivity.
Qed.

(** One activation with haptics off, from any state of the loop. *)
Lemma tap_quiet a h l :
  onPress a = Callable h -> haptics_on a = false ->
  let n := length (invocations l) in
  tap a l [Press]
  = {| calls := calls l ++ [Invoke h];
       invocations := invocations l ++ [Pending (Invoke h) Return] |}
  /\
  tap a l [Press; Settle n true]
  = {| calls := (calls l ++ [Invoke h]) ++ [];
       invocations := invocations l ++ [Fulfilled] |}.
Proof.
  intros Hh Hoff n. subst n. unfold tap, run. rewrite Hoff. cbn [foldl].
  rewrite step_Press, (handlePress_quiet a h Hh). cbn [advance fst snd].
  split; [reflexivity|]. rewrite step_Settle_newest. reflexivity.
Qed.

Lemma tap_app a l es es' : tap a l (es ++ es') = tap a (tap a l es) es'.
Proof. unfold tap, run. apply foldl_app. Qed.

(** C6. An activation of a button whose handler [h] is callable, from any
    state of its loop.  Unless [enableHaptics] is [false], the tap issues
    one haptic request at the resolved intensity and the invocation waits
    for it; when that promise is fulfilled the handler is called, once; in
    all one haptic request and one handler call are added.  When
    [enableHaptics] is [false] the tap calls the handler at once, and no
    haptic request is made. *)
Theorem activation_haptic_then_handler
    (a : SwipeActionConfig) (h : Handler) (l : Loop) :
  onPress a = Callable h ->
  let n := length (invocations l) in
  let i := getHapticsIntensity a in
  (enableHaptics a <> Some false ->
     calls (tap a l [Press]) = calls l ++ [Impact i] /\
     invocations (tap a l [Press]) !! n
       = Some (Pending (Impact i) (Await (Invoke h) Return)) /\
     calls (tap a l [Press; Settle n true]) = calls l ++ [Impact i; Invoke h] /\
     let done := tap a l [Press; Settle n true; Settle n true] in
     calls done = calls l ++ [Impact i; Invoke h] /\
     invocations done !! n = Some Fulfilled /\
     haptic_requests done = haptic_requests l + 1 /\
     handler_invocations done = handler_invocations l + 1)
  /\
  (enableHaptics a = Some false ->
     calls (tap a l [Press]) = calls l ++ [Invoke h] /\
     let done := tap a l [Press; Settle n true] in
     calls done = calls l ++ [Invoke h] /\
     invocations done !! n = Some Fulfilled /\
     haptic_requests done = haptic_requests l /\
     handler_invocations done = handler_invocations l + 1).
Proof.
  intros Hh n i. split.
  - intros He. apply haptics_on_true in He.
    destruct (tap_haptic a h l Hh He) as (H1 & H2 & H3 & _).
    fold n i in H1, H2, H3. cbv zeta. rewrite H1, H2, H3.
    cbn [calls invocations]. rewrite app_nil_r, <- app_assoc.
    repeat apply conj.
    + reflexivity.
    + now apply list_lookup_middle.
    + reflexivity.
    + reflexivity.
    + now apply list_lookup_middle.
    + rewrite (haptic_requests_app _ _ _ (invocations l)). now destruct l.
    + rewrite (handler_invocations_app _ _ _ (invocations l)). now destruct l.
  - intros He. apply haptics_on_false in He.
    destruct (tap_quiet a h l Hh He) as (H1 & H2).
    fold n in H2. cbv zeta. rewrite H1, H2.
    cbn [calls invocations]. rewrite app_nil_r.
    repeat apply conj.
    + reflexivity.
    + reflexivity.
    + now apply list_lookup_middle.
    + rewrite (haptic_requests_app _ _ _ (invocations l)). simpl.
      destruct l; simpl. lia.
    + rewrite (handler_invocations_app _ _ _ (invocations l)). now destruct l.
Qed.

Lemma activation_haptic_then_handler_witness :
  calls (tap (createDeleteAction 7) idle [Press; Settle 0 true])
    = [Impact Heavy; Invoke 7] /\
  calls (tap Scenario.delete_quiet idle [Press]) = [Invoke 0].
Proof.
  split.
  - destruct (activation_haptic_then_handler (createDeleteAction 7) 7 idle
                eq_refl) as [H _].
    destruct H as (_ & _ & H & _); [discriminate|exact H].
  - destruct (activation_haptic_then_handler Scenario.delete_quiet 0 idle
                eq_refl) as [_ H].
    destruct H as (H & _); [reflexivity|exact H].
Defined.

(** C5, as worded, fails: [handlePress] awaits the haptic call outside any
    [try]; when that promise is rejected the invocation is rejected and the
    handler of a [delete] action is never called. *)
Lemma haptic_rejection_skips_handler :
  (let l := tap (createDeleteAction 0) idle [Press; Settle 0 false] in
   calls l = [Impact Heavy] /\ invocations l = [Rejected] /\
   handler_invocations l = 0)
  /\ ~ Worded.haptic_failure_recovered.
Proof.
  split; [repeat split|].
  intros H. destruct (H (createDeleteAction 0) 0 eq_refl) as [H1 _].
  - discriminate.
  - discriminate H1.
Qed.

(** C5, amended.  With haptics on, a rejection of the haptic call ends the
    activation: the invocation of [handlePress] is rejected, the handler is
    not called by it, then or later; the handler is called only once the
    haptic promise is fulfilled. *)
Theorem haptic_rejection_ends_activation
    (a : SwipeActionConfig) (h : Handler) (l : Loop) :
  onPress a = Callable h ->
  enableHaptics a <> Some false ->
  let n := length (invocations l) in
  let failed := tap a l [Press; Settle n false] in
  calls failed = calls l ++ [Impact (getHapticsIntensity a)] /\
  invocations failed = invocations l ++ [Rejected] /\
  handler_invocations failed = handler_invocations l /\
  (forall ok, tap a failed [Settle n ok] = failed) /\
  handler_invocations (tap a l [Press; Settle n true])
    = handler_invocations l + 1.
Proof.
  intros Hh He n failed. apply haptics_on_true in He.
  destruct (tap_haptic a h l Hh He) as (_ & H2 & _ & H4).
  fold n in H2, H4. subst failed. rewrite H2, H4. cbn [calls invocations].
  repeat apply conj.
  - reflexivity.
  - reflexivity.
  - rewrite (handler_invocations_app _ _ _ (invocations l)). simpl.
    destruct l; simpl. lia.
  - intros ok. unfold tap, run. cbn [foldl].
    eapply step_Settle_settled; [|now right].
    now apply list_lookup_middle.
  - rewrite (handler_invocations_app _ _ _ (invocations l)).
    rewrite (handler_invocations_app _ _ _ (invocations l)). simpl.
    destruct l; simpl. lia.
Qed.

Lemma haptic_rejection_ends_activation_witness :
  invocations (tap (createDeleteAction 7) idle [Press; Settle 0 false])
    = [Rejected] /\
  handler_invocations (tap (createDeleteAction 7) idle [Press; Settle 0 false])
    = 0.
Proof.
  destruct (haptic_rejection_ends_activation (createDeleteAction 7) 7 idle)
    as (_ & H2 & H3 & _).
  - reflexivity.
  - discriminate.
  - split; [exact H2|exact H3].
Defined.

(** C2, as worded, fails: the button keeps no pending state, so a second
    tap starts a second invocation.  Two taps on a [delete] button whose
    handler never completes, both haptic promises fulfilled, leave two
    handler calls in flight. *)
Lemma second_tap_invokes_again :
  (let l := tap (createDeleteAction 0) idle
                [Press; Press; Settle 0 true; Settle 1 true] in
   handler_invocations l = 2 /\ handlers_in_flight l = 2)
  /\ ~ Worded.one_in_flight
  /\ ~ Worded.second_tap_ignored.
Proof.
  split; [repeat split|]. split.
  - intros H.
    specialize (H (createDeleteAction 0)
                  [Press; Press; Settle 0 true; Settle 1 true]).
    vm_compute in H. lia.
  - intros H. specialize (H (createDeleteAction 0) 0 eq_refl).
    discriminate H.
Qed.

(** One more activation, from any state of the loop. *)
Lemma activation_adds_one a h l :
  onPress a = Callable h ->
  let l' := tap a l (activation a (length (invocations l))) in
  invocations l' = invocations l ++ [Pending (Invoke h) Return] /\
  handler_invocations l' = handler_invocations l + 1 /\
  handlers_in_flight l' = handlers_in_flight l + 1.
Proof.
  intros Hh l'. subst l'. unfold activation.
  destruct (haptics_on a) eqn:Hon.
  - destruct (tap_haptic a h l Hh Hon) as (_ & -> & _).
    cbn [invocations]. repeat apply conj.
    + reflexivity.
    + rewrite <- app_assoc.
      rewrite (handler_invocations_app _ _ _ (invocations l)).
      now destruct l.
    + rewrite (handlers_in_flight_app _ (calls l)). now destruct l.
  - destruct (tap_quiet a h l Hh Hon) as (-> & _).
    cbn [invocations]. repeat apply conj.
    + reflexivity.
    + rewrite (handler_invocations_app _ _ _ (invocations l)).
      now destruct l.
    + rewrite (handlers_in_flight_app _ (calls l)). now destruct l.
Qed.

(** Any number of activations in a row, from any state of the loop. *)
Lemma activations_add a h count :
  onPress a = Callable h ->
  forall l,
    let l' := tap a l (activations a (length (invocations l)) count) in
    length (invocations l') = length (invocations l) + count /\
    handler_invocations l' = handler_invocations l + count /\
    handlers_in_flight l' = handlers_in_flight l + count.
Proof.
  intros Hh. induction count as [|count IH]; intros l l'; subst l'.
  - cbn [activations]. unfold tap, run. cbn [foldl]. lia.
  - cbn [activations]. rewrite tap_app.
    destruct (activation_adds_one a h l Hh) as (Hi & Hc & Hf).
    set (l1 := tap a l (activation a (length (invocations l)))) in *.
    assert (Hlen : length (invocations l1) = S (length (invocations l))).
    { rewrite Hi, length_app. simpl. lia. }
    rewrite <- Hlen. destruct (IH l1) as (Hi' & Hc' & Hf'). lia.
Qed.

(** C2, amended.  The button has no pending state: an activation is
    carried out whatever invocations are in flight.  From any state of the
    loop, one more activation (its haptic promise fulfilled, when haptics
    are on) adds one handler call and one handler in flight, and [count]
    activations in a row add [count] of each; so two activations issued
    before the first handler completes result in two handler invocations,
    both in flight. *)
Theorem every_activation_invokes
    (a : SwipeActionConfig) (h : Handler) (l : Loop) :
  onPress a = Callable h ->
  let n := length (invocations l) in
  (let l' := tap a l (activation a n) in
   invocations l' = invocations l ++ [Pending (Invoke h) Return] /\
   handler_invocations l' = handler_invocations l + 1 /\
   handlers_in_flight l' = handlers_in_flight l + 1)
  /\
  (forall count,
     let l' := tap a l (activations a n count) in
     handler_invocations l' = handler_invocations l + count /\
     handlers_in_flight l' = handlers_in_flight l + count)
  /\
  (haptics_on a = true ->
   let twice := tap a idle [Press; Press; Settle 0 true; Settle 1 true] in
   handler_invocations twice = 2 /\ handlers_in_flight twice = 2)
  /\
  (haptics_on a = false ->
   let twice := tap a idle [Press; Press] in
   handler_invocations twice = 2 /\ handlers_in_flight twice = 2).
Proof.
  intros Hh n. split; [now apply activation_adds_one|]. split; [|split].
  - intros count. destruct (activations_add a h count Hh l) as (_ & Hc & Hf).
    split; [exact Hc|exact Hf].
  - intros Hon twice. subst twice. unfold tap, run. rewrite Hon.
    rewrite (handlePress_haptic a h Hh). split; reflexivity.
  - intros Hoff twice. subst twice. unfold tap, run. rewrite Hoff.
    rewrite (handlePress_quiet a h Hh). split; reflexivity.
Qed.

Lemma every_activation_invokes_witness :
  handler_invocations
    (tap (createDeleteAction 7) idle [Press; Press; Settle 0 true; Settle 1 true])
  = 2.
Proof.
  destruct (every_activation_invokes (createDeleteAction 7) 7 idle eq_refl)
    as (_ & _ & H & _).
  destruct (H eq_refl) as [H2 _]. exact H2.
Defined.

(** ** The row *)

(** C9. A row given no configuration hands the gesture collaborator the
    thresholds [80], the friction [2] and no overshoot (the default
    [disableOvershoot] is [true]); for every configuration both overshoot
    flags are the negation of the configured [disableOvershoot] and both
    thresholds are the configured threshold. *)
Theorem row_configuration :
  (SwipeAction.threshold DEFAULT_SWIPE_CONFIG = 80%Z /\
   SwipeAction.disableOvershoot DEFAULT_SWIPE_CONFIG = true /\
   SwipeAction.friction DEFAULT_SWIPE_CONFIG = 2%Z)
  /\
  (let sw := SwipeableItem bare in
   leftThreshold sw = 80%Z /\ rightThreshold sw = 80%Z /\
   sw_friction sw = 2%Z /\
   overshootLeft sw = false /\ overshootRight sw = false)
  /\
  (forall props : SwipeableItemProps,
     let sw := SwipeableItem props in
     let configured := default 80%Z (SwipeableItem.threshold props) in
     let disabled := default true (SwipeableItem.disableOvershoot props) in
     overshootLeft sw = negb disabled /\
     overshootRight sw = negb disabled /\
     leftThreshold sw = configured /\
     rightThreshold sw = configured /\
     sw_friction sw = default 2%Z (SwipeableItem.friction props)).
Proof.
  split; [repeat split|]. split; [repeat split|].
  intros props sw configured disabled. repeat split.
Qed.

Lemma render_callback_SwipeableItem props d :
  render_callback (SwipeableItem props) d
  = if decide (0 < length (actions_of props d))
    then Some (renderActions d (actions_of props d))
    else None.
Proof. now destruct d. Qed.

(** What a side shows: one element per descriptor, in the order of the
    list, whatever the descriptors are. *)
Lemma revealed_all tokens props d v :
  revealed tokens props d v
  = imap (fun index a =>
            SwipeActionButton tokens
              {| action := a; position := index;
                 totalActions := length (actions_of props d);
                 direction := d |})
         (actions_of props d).
Proof.
  unfold revealed. rewrite render_callback_SwipeableItem.
  destruct (actions_of props d) as [|a acts] eqn:Hacts.
  - reflexivity.
  - destruct (decide (0 < length (a :: acts))) as [_|Hn]; [|simpl in Hn; lia].
    unfold renderActions.
    destruct (decide (length (a :: acts) = 0)) as [Hz|_]; [discriminate|].
    now rewrite fmap_imap.
Qed.

(** C4, as worded, fails: the render path never calls [validateAction].
    The custom action without a color fails validation, and the row draws
    it, on the theme's [primary] color, with a working [onPress]. *)
Lemma colorless_custom_is_rendered :
  validateAction Scenario.block_colorless = false /\
  (exists view,
     revealed Scenario.tokens Scenario.colorless_row right Scenario.still
       = [view] /\
     backgroundColor view = colors Scenario.tokens primary /\
     press view = Await (Impact Light) (Await (Invoke 0) Return)) /\
  ~ Worded.invalid_not_rendered.
Proof.
  split; [reflexivity|]. split.
  - eexists. split; [reflexivity|]. split; reflexivity.
  - intros H.
    specialize (H Scenario.tokens Scenario.colorless_row right Scenario.still).
    discriminate H.
    intros a Ha. apply list_elem_of_singleton in Ha. now subst a.
Qed.

(** C4, amended.  The row renders every descriptor of a side, valid or
    not, one button each in the order of the list.  A custom descriptor
    that lacks an attribute is drawn with a substitute for it: the label
    ["Action"], the icon ["MoveHorizontal"], the theme's [primary] color;
    and tapping a button calls the handler of its descriptor whenever that
    is a function, validation or not. *)
Theorem every_descriptor_rendered
    (tokens : Tokens) (props : SwipeableItemProps) (d : SwipeDirection)
    (v : Animated) :
  length (revealed tokens props d v) = length (actions_of props d)
  /\
  (forall k a, actions_of props d !! k = Some a ->
     revealed tokens props d v !! k
     = Some (SwipeActionButton tokens
               {| action := a; position := k;
                  totalActions := length (actions_of props d);
                  direction := d |}))
  /\
  (forall p : SwipeActionButtonProps,
     type (action p) = custom ->
     let view := SwipeActionButton tokens p in
     (Js.omitted (label (action p)) -> text view = "Action") /\
     (Js.omitted (icon (action p)) -> iconName view = "MoveHorizontal") /\
     (Js.omitted (color (action p)) ->
        backgroundColor view = colors tokens primary))
  /\
  (forall (p : SwipeActionButtonProps) h,
     onPress (action p) = Callable h ->
     handler_invocations
       (run (press (SwipeActionButton tokens p)) idle [Press; Settle 0 true])
     = 1).
Proof.
  rewrite revealed_all. repeat apply conj.
  - apply length_imap.
  - intros k a Hk. rewrite list_lookup_imap, Hk. reflexivity.
  - intros p Hc view. subst view. cbn [SwipeActionButton text iconName backgroundColor].
    repeat apply conj; intros H.
    + now rewrite (getLabel_omitted _ H), Hc.
    + now rewrite (getIcon_omitted _ H), Hc.
    + now rewrite (background_omitted _ _ H), Hc.
  - intros p h Hh. cbn [SwipeActionButton press].
    destruct (haptics_on (action p)) eqn:Hon.
    + destruct (tap_haptic (action p) h idle Hh Hon) as (_ & H & _).
      unfold tap in H. rewrite Hon in H. simpl length in H. rewrite H.
      reflexivity.
    + destruct (tap_quiet (action p) h idle Hh Hon) as (_ & H).
      unfold tap in H. rewrite Hon in H. simpl length in H. rewrite H.
      reflexivity.
Qed.

Lemma every_descriptor_rendered_witness :
  revealed Scenario.tokens Scenario.colorless_row right Scenario.still !! 0
  = Some (SwipeActionButton Scenario.tokens
            {| action := Scenario.block_colorless; position := 0;
               totalActions := 1; direction := right |}) /\
  backgroundColor
    (SwipeActionButton Scenario.tokens
       {| action := Scenario.block_colorless; position := 0;
          totalActions := 1; direction := right |})
  = "#007AFF".
Proof.
  destruct (every_descriptor_rendered Scenario.tokens Scenario.colorless_row
              right Scenario.still) as (_ & Hk & Hsub & _).
  split.
  - now apply (Hk 0 Scenario.block_colorless).
  - apply (Hsub {| action := Scenario.block_colorless; position := 0;
                   totalActions := 1; direction := right |}).
    + reflexivity.
    + now left.
Defined.


(** ** The row and the gesture collaborator *)

Import Gesture.

Lemma settle_left toValue : settle toValue = Some left -> (0 < toValue)%Z.
Proof.
  unfold settle. destruct (Z.ltb_spec 0 toValue); [auto|].
  destruct (Z.ltb_spec toValue 0); discriminate.
Qed.

Lemma settle_right toValue : settle toValue = Some right -> (toValue < 0)%Z.
Proof.
  unfold settle. destruct (Z.ltb_spec 0 toValue); [discriminate|].
  destruct (Z.ltb_spec toValue 0); [auto|discriminate].
Qed.

Lemma panelWidth_nonneg v callback : (0 <= panelWidth v callback)%Z.
Proof.
  unfold panelWidth. destruct callback as [f|]; [|lia].
  destruct (f v); lia.
Qed.

Lemma panelWidth_absent v : panelWidth v None = 0%Z.
Proof. reflexivity. Qed.

(** The reference collaborator keeps the contract: a panel without a
    callback has no width, and a row is never animated to a side of no
    width. *)
Lemma reference_opens_by_revealing v : opens_by_revealing (reference v).
Proof.
  intros sw st e d Hd. right. intros Hcb.
  destruct e as [x|]; [|discriminate]. cbn [reference] in Hd.
  pose proof (panelWidth_nonneg v (renderLeftActions sw)) as Hl.
  pose proof (panelWidth_nonneg v (renderRightActions sw)) as Hr.
  destruct d; cbn [render_callback] in Hcb; rewrite Hcb in *;
    rewrite panelWidth_absent in *.
  - apply settle_left in Hd.
    destruct st as [[]|];
      repeat match type of Hd with
             | context [if ?b then _ else _] => destruct b
             end; lia.
  - apply settle_right in Hd.
    destruct st as [[]|];
      repeat match type of Hd with
             | context [if ?b then _ else _] => destruct b
             end; lia.
Qed.

(** The reference collaborator does open a side that has a panel, and
    closes it again. *)
Example reference_opens_left :
  drive (reference Scenario.still) (SwipeableItem Scenario.left_only) None
        [Release 500] = Some left /\
  drive (reference Scenario.still) (SwipeableItem Scenario.left_only) None
        [Release 500; Release (-500)] = None /\
  drive (reference Scenario.still) (SwipeableItem Scenario.left_only) None
        [Release 50] = None.
Proof. repeat split. Qed.

Section EmptySide.

Variable swipeable : Collaborator.
Hypothesis contract : opens_by_revealing swipeable.

(** A side without a render callback is never opened. *)
Lemma drive_never_opens sw d es :
  render_callback sw d = None ->
  forall st, st <> Some d -> drive swipeable sw st es <> Some d.
Proof.
  intros Hcb. induction es as [|e es IH]; intros st Hst.
  - exact Hst.
  - cbn [drive foldl]. apply IH. intros Hopen.
    destruct (contract _ _ _ _ Hopen) as [H|H]; [now apply Hst|now apply H].
Qed.

End EmptySide.

(** C8. A row whose action list on one side is empty (or absent) hands the
    gesture collaborator no render callback for that side, and shows no
    button for it.  With a collaborator that opens a side only by revealing
    the panel its callback draws, no sequence of drags and releases, of any
    size, takes the row from closed to that side open. *)
Theorem empty_side_never_opens
    (swipeable : Collaborator) (props : SwipeableItemProps)
    (d : SwipeDirection) :
  opens_by_revealing swipeable ->
  actions_of props d = [] ->
  render_callback (SwipeableItem props) d = None /\
  (forall tokens v, revealed tokens props d v = []) /\
  (forall es, drive swipeable (SwipeableItem props) None es <> Some d).
Proof.
  intros Hcontract Hempty.
  assert (Hcb : render_callback (SwipeableItem props) d = None).
  { rewrite render_callback_SwipeableItem, Hempty. reflexivity. }
  repeat apply conj.
  - exact Hcb.
  - intros tokens v. now rewrite revealed_all, Hempty.
  - intros es. now apply drive_never_opens.
Qed.

Lemma empty_side_never_opens_witness :
  renderRightActions (SwipeableItem Scenario.left_only) = None /\
  drive (reference Scenario.still) (SwipeableItem Scenario.left_only) None
        [Release (-500); Release 500; Release (-500)]
  <> Some right.
Proof.
  destruct (empty_side_never_opens (reference Scenario.still)
              Scenario.left_only right
              (reference_opens_by_revealing Scenario.still) eq_refl)
    as (H1 & _ & H3).
  split; [exact H1|apply H3].
Defined.

(** * Further properties of the code *)

Import Hook Ledger Icons.

(** ** The resolver *)

(** X1. Every factory of [useSwipeActions] returns a descriptor of its own
    type that passes [validateAction], keeps the handler it was given, has
    haptics on and resolves to the preset of its type in all four
    attributes; and there is a factory for every type but [custom]. *)
Theorem factories_valid_presets :
  (forall t make h,
     (t, make) ∈ factories ->
     let a := make h in
     type a = t /\ t <> custom /\
     onPress a = Callable h /\
     validateAction a = true /\
     haptics_on a = true /\
     exists p, ACTION_PRESETS t = Some p /\
       getLabel a = preset_label p /\ getIcon a = preset_icon p /\
       getColorKey a = Some (colorKey p) /\
       getHapticsIntensity a = hapticsIntensity p)
  /\
  (forall t, t <> custom -> exists make, (t, make) ∈ factories).
Proof.
  split.
  - intros t make h Hin a. subst a. unfold factories in Hin.
    repeat (apply elem_of_cons in Hin as [[= -> ->]|Hin];
            [repeat split; try discriminate; eexists; repeat split|]).
    now apply elem_of_nil in Hin.
  - intros t Ht. unfold factories.
    destruct t; try done; eexists; repeat (first [left|right]).
Qed.

Lemma factories_valid_presets_witness :
  validateAction (createArchiveAction 4) = true /\
  getLabel (createArchiveAction 4) = "Archive".
Proof.
  destruct factories_valid_presets as [H _].
  destruct (H archive (createArchive useSwipeActions) 4)
    as (_ & _ & _ & Hv & _ & p & Hp & Hl & _).
  - unfold factories. apply list_elem_of_further, list_elem_of_here.
  - injection Hp as <-. split; [exact Hv|exact Hl].
Defined.

Lemma given_cases x :
  (exists s, Js.supplied x s /\ Js.given x = true) \/
  (Js.omitted x /\ Js.given x = false).
Proof.
  destruct (Js.given x) eqn:H.
  - left. apply given_true in H as [s Hs]. eauto.
  - right. split; [now apply given_false|reflexivity].
Qed.

Lemma getLabel_nonempty a : getLabel a <> EmptyString.
Proof.
  destruct (given_cases (label a)) as [(l & Hl & _)|[Ho _]].
  - rewrite (getLabel_supplied _ _ Hl). apply Hl.
  - rewrite (getLabel_omitted _ Ho).
    destruct (getPreset (type a)) as [p|] eqn:Hp; [|discriminate].
    apply getPreset_Some in Hp as [_ Hp].
    apply preset_strings_truthy in Hp as [Hp _]. now apply truthy_true.
Qed.

Lemma getIcon_nonempty a : getIcon a <> EmptyString.
Proof.
  destruct (given_cases (icon a)) as [(i & Hi & _)|[Ho _]].
  - rewrite (getIcon_supplied _ _ Hi). apply Hi.
  - rewrite (getIcon_omitted _ Ho).
    destruct (getPreset (type a)) as [p|] eqn:Hp; [|discriminate].
    apply getPreset_Some in Hp as [_ Hp].
    apply preset_strings_truthy in Hp as [_ Hp]. now apply truthy_true.
Qed.

(** X2. The resolved label and the resolved icon are never the empty
    string, whatever the descriptor: an empty override and an absent one
    both give way to the preset or to the fallback; so both buttons always
    show a text. *)
Theorem resolved_never_empty (tokens : Tokens) (p : SwipeActionButtonProps) :
  getLabel (action p) <> EmptyString /\
  getIcon (action p) <> EmptyString /\
  text (SwipeActionButton tokens p) <> EmptyString /\
  text (SwipeActionButton_ionicons tokens p) <> EmptyString /\
  iconName (SwipeActionButton tokens p) <> EmptyString.
Proof.
  repeat apply conj.
  - apply getLabel_nonempty.
  - apply getIcon_nonempty.
  - apply getLabel_nonempty.
  - apply getLabel_nonempty.
  - apply getIcon_nonempty.
Qed.

(** X3. [getColorKey] answers [null] exactly when the descriptor carries a
    non-empty color or its type is [custom]; for every other descriptor it
    answers the color role of the preset. *)
Theorem getColorKey_null_iff (a : SwipeActionConfig) :
  (getColorKey a = None <->
     (exists c, Js.supplied (color a) c) \/ type a = custom)
  /\
  (forall k, getColorKey a = Some k ->
     Js.omitted (color a) /\
     exists p, ACTION_PRESETS (type a) = Some p /\ colorKey p = k).
Proof.
  split; [split|].
  - intros Hnone.
    destruct (given_cases (color a)) as [(c & Hc & _)|[Ho _]]; [eauto|].
    right. rewrite (getColorKey_omitted _ Ho) in Hnone.
    destruct (decide (type a = custom)) as [Ht|Ht]; [exact Ht|].
    destruct (getPreset_not_custom _ Ht) as (p & _ & Hp).
    rewrite Hp in Hnone. discriminate.
  - intros [[c Hc]|Ht].
    + eapply getColorKey_supplied, Hc.
    + unfold getColorKey. rewrite Ht. now destruct (Js.given (color a)).
  - intros k Hk.
    destruct (given_cases (color a)) as [(c & Hc & _)|[Ho _]].
    + rewrite (getColorKey_supplied _ _ Hc) in Hk. discriminate.
    + split; [exact Ho|]. rewrite (getColorKey_omitted _ Ho) in Hk.
      destruct (getPreset (type a)) as [p|] eqn:Hp; [|discriminate].
      apply getPreset_Some in Hp as [_ Hp]. injection Hk as <-. eauto.
Qed.

(** X4. For a descriptor that passes [validateAction] the button never
    reaches the [tokens.colors.primary] branch of its background: the
    background is the descriptor's own non-empty color, or else the theme
    color of the preset's role. *)
Theorem valid_background (tokens : Tokens) (a : SwipeActionConfig) :
  validateAction a = true ->
  (exists c, Js.supplied (color a) c /\ background tokens a = c) \/
  (Js.omitted (color a) /\
   exists k, getColorKey a = Some k /\ background tokens a = colors tokens k).
Proof.
  intros Hv.
  destruct (given_cases (color a)) as [(c & Hc & _)|[Ho Hg]].
  - left. exists c. split; [exact Hc|]. now apply background_supplied.
  - right. split; [exact Ho|].
    assert (Ht : type a <> custom).
    { intros Ht. unfold validateAction in Hv. rewrite Ht, Hg in Hv.
      destruct (onPress a); [discriminate..|].
      simpl in Hv. rewrite andb_false_r in Hv. discriminate. }
    destruct (getPreset_not_custom _ Ht) as (p & _ & Hp).
    exists (colorKey p). split.
    + now rewrite (getColorKey_omitted _ Ho), Hp.
    + now rewrite (background_omitted _ _ Ho), Hp.
Qed.

Lemma valid_background_witness :
  background Scenario.tokens (createDeleteAction 2) = "#FF3B30".
Proof.
  destruct (valid_background Scenario.tokens (createDeleteAction 2) eq_refl)
    as [(c & [Hc _] & _)|(_ & k & Hk & Hb)].
  - discriminate Hc.
  - injection Hk as <-. exact Hb.
Defined.

(** X5. A [custom] descriptor that passes [validateAction] is drawn from
    its own values only: the resolved label and icon and the background are
    exactly its three overrides, and [getColorKey] answers [null]. *)
Theorem valid_custom_own_values (tokens : Tokens) (a : SwipeActionConfig) :
  validateAction a = true ->
  type a = custom ->
  label a = Some (getLabel a) /\
  icon a = Some (getIcon a) /\
  color a = Some (background tokens a) /\
  getColorKey a = None.
Proof.
  intros Hv Ht. unfold validateAction in Hv. rewrite Ht in Hv.
  destruct (onPress a); [discriminate..|]. simpl in Hv.
  apply andb_true_iff in Hv as [Hv Hc]. apply andb_true_iff in Hv as [Hl Hi].
  apply given_true in Hl as [l Hl]. apply given_true in Hi as [i Hi].
  apply given_true in Hc as [c Hc].
  rewrite (getLabel_supplied _ _ Hl), (getIcon_supplied _ _ Hi),
    (background_supplied tokens _ _ Hc), (getColorKey_supplied _ _ Hc).
  destruct Hl as [-> _], Hi as [-> _], Hc as [-> _]. repeat split.
Qed.

Lemma valid_custom_own_values_witness :
  label (Scenario.block 5) = Some (getLabel (Scenario.block 5)) /\
  color (Scenario.block 5)
    = Some (background Scenario.tokens (Scenario.block 5)).
Proof.
  destruct (valid_custom_own_values Scenario.tokens (Scenario.block 5)
              eq_refl eq_refl) as (Hl & _ & Hc & _).
  split; [exact Hl|exact Hc].
Defined.

(** X6. Resolution is idempotent: a descriptor that carries the resolved
    label and icon of another descriptor as its own overrides resolves to
    the same label and icon, whatever its type is ([custom] included). *)
Theorem resolution_idempotent (a b : SwipeActionConfig) :
  (label b = Some (getLabel a) -> getLabel b = getLabel a) /\
  (icon b = Some (getIcon a) -> getIcon b = getIcon a).
Proof.
  pose proof (getLabel_nonempty a) as Hl.
  pose proof (getIcon_nonempty a) as Hi. split; intros H.
  - apply getLabel_supplied. now split.
  - apply getIcon_supplied. now split.
Qed.

Lemma resolution_idempotent_witness :
  getLabel {| type := custom; label := Some (getLabel Scenario.custom_bare);
              icon := None; color := None; onPress := Missing;
              enableHaptics := None |}
  = "Action".
Proof.
  now apply (resolution_idempotent Scenario.custom_bare
               {| type := custom; label := Some (getLabel Scenario.custom_bare);
                  icon := None; color := None; onPress := Missing;
                  enableHaptics := None |}).
Defined.

(** ** The second variant's icons *)





(** ** Counting on the event loop *)

Lemma sum_insert (g : Promise -> nat) l i x y :
  l !! i = Some x ->
  sum_list_with g (<[i:=y]> l) + g x = sum_list_with g l + g y.
Proof.
  revert i. induction l as [|p l IH]; intros [|i] H; try discriminate.
  - injection H as ->. cbn. lia.
  - specialize (IH i H).
    change (<[S i:=y]> (p :: l)) with (p :: <[i:=y]> l). simpl. lia.
Qed.

Lemma made_app f cs cs' inv :
  made f {| calls := cs ++ cs'; invocations := inv |}
  = length (List.filter f cs) + length (List.filter f cs').
Proof. unfold made; cbn. now rewrite List.filter_app, length_app. Qed.

(** A tap adds to made-and-owed what the body makes in all. *)
Lemma total_step_Press f body l :
  total f (step body l Press) = total f l + count_in f body.
Proof.
  rewrite step_Press. unfold total. rewrite made_app. cbn [invocations].
  rewrite sum_list_with_app. unfold made.
  destruct body as [c rest| |]; cbn; destruct l; cbn;
    try (destruct (f c); cbn); lia.
Qed.

(** A settled promise never adds to it: a call made was owed before. *)
Lemma total_step_Settle f body l i ok :
  total f (step body l (Settle i ok)) <= total f l.
Proof.
  unfold step. destruct (invocations l !! i) as [[c rest| |]|] eqn:Hi; try lia.
  destruct ok.
  - destruct rest as [c' rest'| |]; cbn [advance]; unfold total;
      rewrite made_app; cbn [invocations].
    + pose proof (sum_insert (owed f) _ i _ (Pending c' rest') Hi) as Hs.
      unfold made. cbn in *. destruct (f c'); cbn; lia.
    + pose proof (sum_insert (owed f) _ i _ Rejected Hi) as Hs.
      unfold made. cbn in *. lia.
    + pose proof (sum_insert (owed f) _ i _ Fulfilled Hi) as Hs.
      unfold made. cbn in *. lia.
  - unfold total, made. cbn [calls invocations].
    pose proof (sum_insert (owed f) _ i _ Rejected Hi) as Hs. cbn in *. lia.
Qed.

Lemma total_run f body es :
  forall l, total f (run body l es) <= total f l + presses es * count_in f body.
Proof.
  unfold run. induction es as [|e es IH]; intros l; cbn [foldl].
  - unfold presses. cbn. lia.
  - specialize (IH (step body l e)). destruct e as [|i ok].
    + rewrite total_step_Press in IH. unfold presses in *. cbn in *. lia.
    + pose proof (total_step_Settle f body l i ok). unfold presses in *.
      cbn in *. lia.
Qed.

(** What was made stays made. *)
Lemma made_step f body l e : made f l <= made f (step body l e).
Proof.
  destruct e as [|i ok].
  - rewrite step_Press, made_app. unfold made. lia.
  - unfold step. destruct (invocations l !! i) as [[c rest| |]|]; try lia.
    destruct ok; [|unfold made; cbn; lia].
    destruct (advance rest) as [cs p]. rewrite made_app. unfold made. lia.
Qed.

(** A body that starts with a call of the kind makes one at every tap. *)
Lemma made_run_ge f c rest es :
  f c = true ->
  forall l, made f l + presses es <= made f (run (Await c rest) l es).
Proof.
  intros Hc. unfold run. induction es as [|e es IH]; intros l; cbn [foldl].
  - unfold presses. cbn. lia.
  - specialize (IH (step (Await c rest) l e)). destruct e as [|i ok].
    + rewrite step_Press in IH. cbn [advance fst snd] in IH.
      rewrite made_app in IH at 1. cbn in IH. rewrite Hc in IH.
      unfold presses, made in *. cbn in *. lia.
    + pose proof (made_step f (Await c rest) l (Settle i ok)).
      unfold presses in *. cbn in *. lia.
Qed.

(** Every tap starts one invocation, and nothing else starts or ends one. *)
Lemma invocations_run body es :
  forall l,
    length (invocations (run body l es)) = length (invocations l) + presses es.
Proof.
  unfold run. induction es as [|e es IH]; intros l; cbn [foldl].
  - unfold presses. cbn. lia.
  - rewrite IH. destruct e as [|i ok].
    + rewrite step_Press. cbn [invocations]. rewrite length_app.
      unfold presses. cbn. lia.
    + unfold presses. cbn. unfold step.
      destruct (invocations l !! i) as [[c rest| |]|]; try lia.
      destruct ok; [destruct (advance rest)|]; cbn [invocations];
        rewrite length_insert; lia.
Qed.

Lemma count_invoke_handlePress a b :
  count_in is_invoke (handlePress a b)
  = match onPress a with Callable _ => 1 | _ => 0 end.
Proof.
  unfold handlePress, call_onPress.
  destruct b; [destruct (getHapticsIntensity a)|]; now destruct (onPress a).
Qed.

Lemma count_impact_handlePress a b :
  count_in is_impact (handlePress a b) = if b then 1 else 0.
Proof.
  unfold handlePress, call_onPress.
  destruct b; [destruct (getHapticsIntensity a)|]; now destruct (onPress a).
Qed.

Lemma handlePress_true_shape a :
  handlePress a true
  = Await (Impact (getHapticsIntensity a)) (call_onPress a Return).
Proof. unfold handlePress. now destruct (getHapticsIntensity a). Qed.

Lemma handler_invocations_bound a es :
  handler_invocations (tap a idle es)
  <= presses es * match onPress a with Callable _ => 1 | _ => 0 end.
Proof.
  pose proof (total_run is_invoke (handlePress a (haptics_on a)) es idle) as H.
  rewrite count_invoke_handlePress in H. unfold total in H.
  change (made is_invoke idle) with 0 in H. cbn [idle invocations sum_list_with] in H.
  unfold tap, handler_invocations. unfold made in H. lia.
Qed.

Lemma filter_length_le {A} (f : A -> bool) (l : list A) :
  length (List.filter f l) <= length l.
Proof. induction l as [|x l IH]; cbn; [lia|]. destruct (f x); cbn; lia. Qed.

(** X8. Whatever events reach a button, in whatever order (taps, promises
    fulfilled or rejected, settled twice or never): every tap starts one
    invocation of [handlePress] and nothing else does, and the handler has
    never been called more often than the button was tapped. *)
Theorem handler_at_most_once_per_tap (a : SwipeActionConfig) (es : list Event) :
  length (invocations (tap a idle es)) = presses es /\
  handler_invocations (tap a idle es) <= presses es /\
  handlers_in_flight (tap a idle es) <= presses es.
Proof.
  pose proof (invocations_run (handlePress a (haptics_on a)) es idle) as Hn.
  cbn [idle invocations length] in Hn. fold (tap a idle es) in Hn.
  repeat apply conj.
  - exact Hn.
  - pose proof (handler_invocations_bound a es). destruct (onPress a); lia.
  - pose proof (filter_length_le handler_pending (invocations (tap a idle es))).
    unfold handlers_in_flight. lia.
Qed.

(** X9. Whatever events reach a button: with haptics on, the haptic
    requests issued are as many as the taps, one at each tap and none
    later, and the handler has never been called more often than haptics
    were requested; with haptics off, no haptic request is ever issued. *)
Theorem haptic_request_per_tap (a : SwipeActionConfig) (es : list Event) :
  haptic_requests (tap a idle es) = (if haptics_on a then presses es else 0) /\
  (haptics_on a = true ->
   handler_invocations (tap a idle es) <= haptic_requests (tap a idle es)).
Proof.
  assert (Hreq : haptic_requests (tap a idle es)
                 = if haptics_on a then presses es else 0).
  { pose proof (total_run is_impact (handlePress a (haptics_on a)) es idle) as Hle.
    rewrite count_impact_handlePress in Hle. unfold total in Hle.
    change (made is_impact idle) with 0 in Hle.
    cbn [idle invocations sum_list_with] in Hle.
    unfold tap, haptic_requests. unfold made in Hle.
    destruct (haptics_on a) eqn:Hon; [|lia].
    pose proof (made_run_ge is_impact (Impact (getHapticsIntensity a))
                  (call_onPress a Return) es eq_refl idle) as Hge.
    rewrite <- handlePress_true_shape in Hge.
    change (made is_impact idle) with 0 in Hge. unfold made in Hge. lia. }
  split; [exact Hreq|].
  intros Hon. rewrite Hreq, Hon.
  pose proof (handler_invocations_bound a es). destruct (onPress a); lia.
Qed.

Lemma haptic_request_per_tap_witness :
  handler_invocations
    (tap (createDeleteAction 7) idle
         [Press; Settle 0 false; Press; Settle 1 true; Settle 1 true; Press])
  <= 3.
Proof.
  destruct (haptic_request_per_tap (createDeleteAction 7)
              [Press; Settle 0 false; Press; Settle 1 true; Settle 1 true; Press])
    as [Hreq Hle].
  specialize (Hle eq_refl). rewrite Hreq in Hle. exact Hle.
Defined.

(** X10. A button whose [onPress] is missing or not a function never calls
    a handler, whatever events reach it; its tap is rejected: at once with
    haptics off, and after the haptic request, which is still issued, with
    haptics on. *)
Theorem not_callable_never_invoked (a : SwipeActionConfig) :
  (forall h, onPress a <> Callable h) ->
  (forall es, handler_invocations (tap a idle es) = 0) /\
  (haptics_on a = false ->
   tap a idle [Press] = {| calls := []; invocations := [Rejected] |}) /\
  (haptics_on a = true ->
   tap a idle [Press; Settle 0 true]
   = {| calls := [Impact (getHapticsIntensity a)];
        invocations := [Rejected] |}).
Proof.
  intros Hno. repeat apply conj.
  - intros es. pose proof (handler_invocations_bound a es) as H.
    destruct (onPress a) as [| |h]; [lia|lia|now destruct (Hno h)].
  - intros Hoff. unfold tap, run. rewrite Hoff. unfold handlePress, call_onPress.
    destruct (onPress a) as [| |h]; [reflexivity|reflexivity|now destruct (Hno h)].
  - intros Hon. unfold tap, run. rewrite Hon, handlePress_true_shape.
    unfold call_onPress.
    destruct (onPress a) as [| |h]; [reflexivity|reflexivity|now destruct (Hno h)].
Qed.

Lemma not_callable_never_invoked_witness :
  tap Samples.delete_unhandled idle [Press; Settle 0 true]
  = {| calls := [Impact Heavy]; invocations := [Rejected] |}.
Proof.
  destruct (not_callable_never_invoked Samples.delete_unhandled)
    as (_ & _ & H).
  - intros h. discriminate.
  - now apply H.
Defined.

(** ** The row's render callbacks *)

Lemma renderActions_elements d acts v :
  acts <> [] ->
  exists elements,
    renderActions d acts v = Some elements /\
    action <$> elements = acts /\
    forall k e, elements !! k = Some e ->
      position e = k /\ totalActions e = length acts /\ direction e = d.
Proof.
  intros Hne. unfold renderActions.
  destruct (decide (length acts = 0)) as [Hz|_].
  - destruct acts; [done|discriminate].
  - eexists. split; [reflexivity|]. split.
    + apply list_eq. intros k.
      rewrite list_lookup_fmap, list_lookup_imap. now destruct (acts !! k).
    + intros k e. rewrite list_lookup_imap.
      destruct (acts !! k); [|discriminate]. now intros [= <-].
Qed.

(** X11. The row hands [Swipeable] a render callback for a side exactly
    when that side has an action.  Such a callback never answers [null]
    (its own test for an empty list is never met): whatever animated values
    it is called with, it yields one element per descriptor, in the order
    of the list, the [k]-th one with position [k], the length of the list
    as total and the side as direction. *)
Theorem render_callback_elements
    (props : SwipeableItemProps) (d : SwipeDirection) :
  (render_callback (SwipeableItem props) d = None <-> actions_of props d = [])
  /\
  (forall callback v,
     render_callback (SwipeableItem props) d = Some callback ->
     exists elements,
       callback v = Some elements /\
       elements <> [] /\
       action <$> elements = actions_of props d /\
       forall k e, elements !! k = Some e ->
         position e = k /\
         totalActions e = length (actions_of props d) /\
         direction e = d).
Proof.
  rewrite render_callback_SwipeableItem. split.
  - destruct (actions_of props d) as [|a acts]; cbn; [done|].
    split; discriminate.
  - intros callback v Hcb.
    destruct (decide (0 < length (actions_of props d))) as [Hpos|]; [|discriminate].
    injection Hcb as <-.
    assert (Hne : actions_of props d <> []).
    { intros Hnil. rewrite Hnil in Hpos. cbn in Hpos. lia. }
    destruct (renderActions_elements d _ v Hne) as (els & Hels & Hact & Hk).
    exists els. repeat apply conj; try assumption.
    intros ->. now rewrite <- Hact in Hne.
Qed.

Lemma render_callback_elements_witness :
  exists callback elements,
    renderRightActions (SwipeableItem Samples.mailbox) = Some callback /\
    callback Scenario.still = Some elements /\
    action <$> elements = [createDeleteAction 2; Scenario.block 9].
Proof.
  destruct (render_callback_elements Samples.mailbox right) as [_ H].
  destruct (H (renderActions right [createDeleteAction 2; Scenario.block 9])
              Scenario.still eq_refl) as (els & Hels & _ & Hact & _).
  exists (renderActions right [createDeleteAction 2; Scenario.block 9]), els.
  split; [reflexivity|]. split; [exact Hels|exact Hact].
Defined.

(** X12. Each button of a revealed side is wired to its own descriptor:
    the [k]-th button shows the resolved label and icon of the [k]-th
    descriptor of the list, and one activation of it calls the handler of
    that descriptor, after the haptic request of that descriptor's
    intensity when its haptics are on. *)
Theorem revealed_button_own_handler
    (tokens : Tokens) (props : SwipeableItemProps) (d : SwipeDirection)
    (v : Animated) (k : nat) (a : SwipeActionConfig) (h : Handler) :
  actions_of props d !! k = Some a ->
  onPress a = Callable h ->
  exists view,
    revealed tokens props d v !! k = Some view /\
    text view = getLabel a /\ iconName view = getIcon a /\
    backgroundColor view = background tokens a /\
    calls (run (press view) idle (activation a 0))
    = (if haptics_on a then [Impact (getHapticsIntensity a)] else [])
      ++ [Invoke h].
Proof.
  intros Hk Hh. rewrite revealed_all, list_lookup_imap, Hk. cbn [fmap option_fmap option_map].
  eexists. split; [reflexivity|]. cbn [SwipeActionButton text iconName backgroundColor press action].
  repeat apply conj; try reflexivity.
  unfold activation. destruct (haptics_on a) eqn:Hon.
  - destruct (tap_haptic a h idle Hh Hon) as (_ & H & _).
    unfold tap in H. rewrite Hon in H. cbn [idle invocations length] in H.
    rewrite H. reflexivity.
  - destruct (tap_quiet a h idle Hh Hon) as (H & _).
    unfold tap in H. rewrite Hon in H. rewrite H. reflexivity.
Qed.

Lemma revealed_button_own_handler_witness :
  exists view,
    revealed Scenario.tokens Samples.mailbox right Scenario.still !! 1
      = Some view /\
    text view = "Block" /\
    calls (run (press view) idle [Press; Settle 0 true])
      = [Impact Light; Invoke 9].
Proof.
  destruct (revealed_button_own_handler Scenario.tokens Samples.mailbox right
              Scenario.still 1 (Scenario.block 9) 9 eq_refl eq_refl)
    as (view & Hv & Ht & _ & _ & Hc).
  exists view. split; [exact Hv|]. split; [exact Ht|exact Hc].
Defined.

(** ** Overrides and the type *)

(** X13. When label, icon and color are all carried by the descriptor
    (non-empty), what the button shows does not depend on the type: two
    descriptors with the same three overrides are drawn alike, whatever
    their types are, and none of the three comes from a preset. *)
Theorem full_overrides_hide_type
    (tokens : Tokens) (p q : SwipeActionButtonProps) (l i c : string) :
  Js.supplied (label (action p)) l ->
  Js.supplied (icon (action p)) i ->
  Js.supplied (color (action p)) c ->
  label (action q) = label (action p) ->
  icon (action q) = icon (action p) ->
  color (action q) = color (action p) ->
  let u := SwipeActionButton tokens p in
  let w := SwipeActionButton tokens q in
  text u = l /\ iconName u = i /\ backgroundColor u = c /\
  text w = l /\ iconName w = i /\ backgroundColor w = c.
Proof.
  intros Hl Hi Hc Hql Hqi Hqc u w. subst u w.
  cbn [SwipeActionButton text iconName backgroundColor].
  assert (Hl' : Js.supplied (label (action q)) l) by (rewrite Hql; exact Hl).
  assert (Hi' : Js.supplied (icon (action q)) i) by (rewrite Hqi; exact Hi).
  assert (Hc' : Js.supplied (color (action q)) c) by (rewrite Hqc; exact Hc).
  repeat apply conj.
  - now apply getLabel_supplied.
  - now apply getIcon_supplied.
  - now apply background_supplied.
  - now apply getLabel_supplied.
  - now apply getIcon_supplied.
  - now apply background_supplied.
Qed.

Lemma full_overrides_hide_type_witness :
  text (SwipeActionButton Scenario.tokens
          {| action := {| type := delete; label := Some "Block";
                          icon := Some "ban"; color := Some "#FF0000";
                          onPress := Callable 1; enableHaptics := None |};
             position := 0; totalActions := 1; direction := left |})
  = "Block".
Proof.
  refine (proj1 (proj2 (proj2 (proj2
    (full_overrides_hide_type Scenario.tokens
       {| action := Scenario.block 1; position := 0; totalActions := 1;
          direction := left |}
       {| action := {| type := delete; label := Some "Block";
                       icon := Some "ban"; color := Some "#FF0000";
                       onPress := Callable 1; enableHaptics := None |};
          position := 0; totalActions := 1; direction := left |}
       "Block" "ban" "#FF0000" _ _ _ eq_refl eq_refl eq_refl)))));
    (split; [reflexivity|discriminate]).
Defined.

(** ** Lifecycle callbacks *)

Import Lifecycle.




(** ** A handler that fails *)

(** X15. When the promise of the handler is rejected, the invocation of
    [handlePress] is rejected with it and makes no further call: nothing is
    retried, then or on a later settlement; and the next activation of the
    button calls the handler again as usual. *)
Theorem handler_failure_not_retried
    (a : SwipeActionConfig) (h : Handler) (l : Loop) :
  onPress a = Callable h ->
  let n := length (invocations l) in
  let before := tap a l (activation a n) in
  let after := tap a before [Settle n false] in
  calls after = calls before /\
  invocations after = invocations l ++ [Rejected] /\
  (forall ok, tap a after [Settle n ok] = after) /\
  handler_invocations (tap a after (activation a (S n)))
  = handler_invocations before + 1.
Proof.
  intros Hh n before after.
  assert (Hbefore : exists cs,
            before = {| calls := cs;
                        invocations := invocations l
                                       ++ [Pending (Invoke h) Return] |}).
  { subst before n. unfold activation.
    destruct (haptics_on a) eqn:Hon; cbv iota.
    - destruct (tap_haptic a h l Hh Hon) as (_ & -> & _). eauto.
    - destruct (tap_quiet a h l Hh Hon) as (-> & _). eauto. }
  destruct Hbefore as [cs Hbefore].
  assert (Hafter : after = {| calls := cs;
                              invocations := invocations l ++ [Rejected] |}).
  { subst after. rewrite Hbefore. unfold tap, run. cbn [foldl].
    now rewrite step_Settle_newest. }
  rewrite Hafter, Hbefore. subst n. cbn [calls invocations].
  repeat apply conj.
  - reflexivity.
  - reflexivity.
  - intros ok. unfold tap, run. cbn [foldl].
    eapply step_Settle_settled; [|now right].
    cbn [invocations]. now apply list_lookup_middle.
  - pose proof (activation_adds_one a h
                  {| calls := cs; invocations := invocations l ++ [Rejected] |}
                  Hh) as (_ & Hc & _).
    cbn [invocations] in Hc. rewrite length_app in Hc. cbn [length] in Hc.
    replace (length (invocations l) + 1) with (S (length (invocations l)))
      in Hc by lia.
    rewrite Hc. reflexivity.
Qed.

Lemma handler_failure_not_retried_witness :
  invocations (tap (createDeleteAction 7) idle
                   [Press; Settle 0 true; Settle 0 false])
  = [Rejected].
Proof.
  destruct (handler_failure_not_retried (createDeleteAction 7) 7 idle eq_refl)
    as (_ & H & _).
  exact H.
Defined.
